(** * The todo store of [todos/scripts/todo.py]

    A shallow embedding of the record store ([load_todos], [write_todos]),
    the identifier resolver ([resolve_id]), the commands ([cmd_new],
    [cmd_close], [cmd_dep], [cmd_summary], [cmd_ready]) and the merge driver
    ([cmd_merge]), followed by the properties of the specification; and of
    the paths of the store ([repo_root], [todos_paths]), the attributes file
    of [cmd_init] and the listing ([cmd_list]), with further properties of
    the program.

    Conventions of the model.
    - A Python [str] is a [string]: a sequence of code points below 256,
      compared code point by code point as Python compares strings.  The
      text of a file is what text mode yields: its line ends are the single
      character 010.
    - The values a record holds are strings and lists of strings, which is
      what the tool itself ever writes ([value]); a record is a Python dict,
      kept as an association list in insertion order ([record]).
    - The mapping from ids to records is a [gmap]: every use the program makes
      of its iteration order is followed by a sort.  [todos !!! k] stands for
      [todos[k]] at a key of [todos]: the program subscripts the mapping with
      what [resolve_id] returned or [sorted(todos)] listed, which are keys.
    - [die] (message on stderr, exit status 1) and an uncaught exception are
      the two ways a command fails ([Die], [Raise]).
    - [json.loads], [json.dumps], the clock [now()] and [uuid.uuid4()] are
      outside the repository: the first two are the interface [Codec],
      the last two are arguments of the commands that call them. *)

From Stdlib Require Import String Ascii List.
From stdpp Require Import base option list strings gmap sorting.

(** ** Results of fallible code *)

Inductive result (A : Type) : Type :=
  | Ok (a : A)
  | Die (msg : string)
  | Raise.
Arguments Ok {A} a.
Arguments Die {A} msg.
Arguments Raise {A}.

Definition result_bind {A B} (f : A → result B) (m : result A) : result B :=
  match m with
  | Ok a => f a
  | Die msg => Die msg
  | Raise => Raise
  end.

#[global] Instance result_mbind : MBind result := @result_bind.
#[global] Instance result_mret : MRet result := @Ok.

(** ** Python strings *)

Definition nl : ascii := "010"%char.
Definition newline : string := String nl "".

(** [str.isspace] on the code points below 256. *)
Definition is_space (c : ascii) : bool :=
  match c with
  | "009" | "010" | "011" | "012" | "013"
  | "028" | "029" | "030" | "031" | " " | "133" | "160" => true
  | _ => false
  end%char.

Fixpoint lstrip (s : string) : string :=
  match s with
  | "" => ""
  | String c s' => if is_space c then lstrip s' else s
  end.

Fixpoint rstrip (s : string) : string :=
  match s with
  | "" => ""
  | String c s' =>
      match rstrip s' with
      | "" => if is_space c then "" else String c ""
      | t => String c t
      end
  end.

(** [s.strip()] *)
Definition strip (s : string) : string := lstrip (rstrip s).

(** [for line in f]: the lines of a text, each with its line end. *)
Fixpoint readlines (text : string) : list string :=
  match text with
  | "" => []
  | String c rest =>
      if decide (c = nl) then newline :: readlines rest
      else match readlines rest with
           | [] => [String c ""]
           | line :: lines => String c line :: lines
           end
  end.

(** [os.path.dirname(path)] is not empty: the path has a "/". *)
Fixpoint has_dirname (path : string) : bool :=
  match path with
  | "" => false
  | String c path' => if decide (c = "/"%char) then true else has_dirname path'
  end.

(** [t_id.startswith(needle)] *)
Definition startswith (t_id needle : string) : bool := String.prefix needle t_id.

(** [sep.join(l)] *)
Definition join (sep : string) (l : list string) : string := String.concat sep l.

(** [needle in s] on two strings: the substring test. *)
Definition contains (s needle : string) : bool :=
  bool_decide (is_Some (String.index 0 needle s)).

(** [sorted(l)] and [l.sort()] on strings. *)
Definition sorted (l : list string) : list string := merge_sort String.le l.

(** ** Values, records and the mapping of ids *)

Inductive value : Type :=
  | VStr (s : string)
  | VList (l : list string).

Definition record : Type := list (string * value).

(** What [json.loads] returns: an object, or a value that is not one. *)
Inductive json : Type :=
  | JObj (obj : record)
  | JVal (v : value).

#[global] Instance value_eq_dec : EqDecision value.
Proof. solve_decision. Defined.
#[global] Instance json_eq_dec : EqDecision json.
Proof. solve_decision. Defined.

Abbreviation dict := (gmap string record).

(** [obj.get(k)] *)
Fixpoint get (k : string) (obj : record) : option value :=
  match obj with
  | [] => None
  | (k', v) :: obj' => if decide (k = k') then Some v else get k obj'
  end.

(** [obj[k]]: a missing key raises [KeyError]. *)
Definition getitem (k : string) (obj : record) : result value :=
  match get k obj with
  | Some v => Ok v
  | None => Raise
  end.

(** [obj[k] = v]: a present key keeps its place, a new one goes last. *)
Fixpoint setitem (k : string) (v : value) (obj : record) : record :=
  match obj with
  | [] => [(k, v)]
  | (k', v') :: obj' =>
      if decide (k = k') then (k, v) :: obj' else (k', v') :: setitem k v obj'
  end.

(** [a >= b]: strings and lists compare with their own kind only. *)
Definition str_ge (a b : string) : bool := String.leb b a.

Fixpoint list_ge (a b : list string) : bool :=
  match a, b with
  | _, [] => true
  | [], _ :: _ => false
  | x :: a', y :: b' => if decide (x = y) then list_ge a' b' else str_ge x y
  end.

Definition py_ge (a b : value) : result bool :=
  match a, b with
  | VStr x, VStr y => Ok (str_ge x y)
  | VList x, VList y => Ok (list_ge x y)
  | _, _ => Raise
  end.

(** Truth value of [ours.get(_id)]: [None] and the empty dict are false. *)
Definition truthy (o : option record) : option record :=
  match o with
  | Some (f :: obj) => Some (f :: obj)
  | _ => None
  end.

(** [for d in v]: a list yields its elements, a string its characters. *)
Fixpoint chars (s : string) : list string :=
  match s with
  | "" => []
  | String c s' => String c "" :: chars s'
  end.

Definition iter (v : value) : list string :=
  match v with
  | VList l => l
  | VStr s => chars s
  end.

(** ** A JSON codec for these values

    The compact form [json.dumps(obj, separators=(",", ":"))] prints, and a
    reader of JSON texts whose values are strings, arrays of strings and
    objects of those.  The store below is written against the interface
    [Codec]; this codec instantiates it on concrete stores. *)

Module Json.

Definition dq : ascii := "034"%char.
Definition bs : ascii := "092"%char.

Definition hex_digit (n : N) : ascii :=
  if (n <? 10)%N then ascii_of_N (48 + n) else ascii_of_N (87 + n).

Definition escape (c : ascii) : string :=
  let n := N_of_ascii c in
  if decide (c = dq) then String bs (String dq "")
  else if decide (c = bs) then String bs (String bs "")
  else if decide (n = 10%N) then String bs "n"
  else if decide (n = 13%N) then String bs "r"
  else if decide (n = 9%N) then String bs "t"
  else if decide (n = 8%N) then String bs "b"
  else if decide (n = 12%N) then String bs "f"
  else if ((n <? 32) || (126 <? n))%N then
    String bs (String "u" (String "0" (String "0"
      (String (hex_digit (n / 16)) (String (hex_digit (n mod 16)) "")))))
  else String c "".

Fixpoint escape_all (s : string) : string :=
  match s with
  | "" => ""
  | String c s' => escape c +:+ escape_all s'
  end.

Definition quote (s : string) : string :=
  String dq (escape_all s +:+ String dq "").

Definition dumps_value (v : value) : string :=
  match v with
  | VStr s => quote s
  | VList l => "[" +:+ join "," (quote <$> l) +:+ "]"
  end.

Definition member (f : string * value) : string :=
  quote f.1 +:+ ":" +:+ dumps_value f.2.

Definition dumps (obj : record) : string :=
  "{" +:+ join "," (member <$> obj) +:+ "}".

(** What [dumps_value] prints after the first element of a list, and
    [dumps] after the first member of an object. *)
Fixpoint more_elements (l : list string) : string :=
  match l with
  | [] => ""
  | x :: l' => "," +:+ quote x +:+ more_elements l'
  end.

Fixpoint more_members (l : record) : string :=
  match l with
  | [] => ""
  | f :: l' => "," +:+ member f +:+ more_members l'
  end.

Definition hex_value (c : ascii) : option N :=
  let n := N_of_ascii c in
  if ((48 <=? n) && (n <=? 57))%N then Some (n - 48)%N
  else if ((97 <=? n) && (n <=? 102))%N then Some (n - 87)%N
  else if ((65 <=? n) && (n <=? 70))%N then Some (n - 55)%N
  else None.

Definition unescape (c : ascii) : option ascii :=
  if decide (c = dq) then Some dq
  else if decide (c = bs) then Some bs
  else match c with
       | "/" => Some "/"
       | "n" => Some "010"
       | "r" => Some "013"
       | "t" => Some "009"
       | "b" => Some "008"
       | "f" => Some "012"
       | _ => None
       end%char.

(** The text after an opening quote: the string it spells and what follows
    its closing quote. *)
Fixpoint read_string (s : string) : option (string * string) :=
  match s with
  | "" => None
  | String c s1 =>
      if decide (c = dq) then Some ("", s1)
      else if decide (c = bs) then
        match s1 with
        | String "u" (String h1 (String h2 (String h3 (String h4 s2)))) =>
            a ← hex_value h1; b ← hex_value h2;
            c ← hex_value h3; d ← hex_value h4;
            if decide (a = 0%N ∧ b = 0%N) then
              p ← read_string s2; Some (String (ascii_of_N (16 * c + d)) p.1, p.2)
            else None
        | String e s2 =>
            c' ← unescape e; p ← read_string s2; Some (String c' p.1, p.2)
        | "" => None
        end
      else if (N_of_ascii c <? 32)%N then None
      else p ← read_string s1; Some (String c p.1, p.2)
  end.

Definition is_ws (c : ascii) : bool :=
  match c with
  | " " | "009" | "010" | "013" => true
  | _ => false
  end%char.

Fixpoint skip_ws (s : string) : string :=
  match s with
  | String c s' => if is_ws c then skip_ws s' else s
  | "" => ""
  end.

(** The elements of an array after the first, up to the closing bracket. *)
Fixpoint read_elements (fuel : nat) (s : string) : option (list string * string) :=
  match fuel with
  | O => None
  | S fuel =>
      match skip_ws s with
      | String "]" s' => Some ([], s')
      | String "," s' =>
          match skip_ws s' with
          | String c s'' =>
              if decide (c = dq) then
                p ← read_string s''; q ← read_elements fuel p.2;
                Some (p.1 :: q.1, q.2)
              else None
          | "" => None
          end
      | _ => None
      end
  end.

Definition read_value (s : string) : option (value * string) :=
  match skip_ws s with
  | String "[" s' =>
      match skip_ws s' with
      | String "]" s'' => Some (VList [], s'')
      | String c s'' =>
          if decide (c = dq) then
            p ← read_string s''; q ← read_elements (String.length s) p.2;
            Some (VList (p.1 :: q.1), q.2)
          else None
      | "" => None
      end
  | String c s' =>
      if decide (c = dq) then p ← read_string s'; Some (VStr p.1, p.2)
      else None
  | "" => None
  end.

Definition read_member (s : string) : option (string * value * string) :=
  match skip_ws s with
  | String c s' =>
      if decide (c = dq) then
        k ← read_string s';
        match skip_ws k.2 with
        | String ":" s'' => v ← read_value s''; Some (k.1, v.1, v.2)
        | _ => None
        end
      else None
  | "" => None
  end.

(** The members of an object after the first, up to the closing brace; a
    repeated name keeps its place and takes the later value. *)
Fixpoint read_members (fuel : nat) (obj : record) (s : string)
    : option (record * string) :=
  match fuel with
  | O => None
  | S fuel =>
      match skip_ws s with
      | String "}" s' => Some (obj, s')
      | String "," s' =>
          m ← read_member s'; read_members fuel (setitem m.1.1 m.1.2 obj) m.2
      | _ => None
      end
  end.

Definition read_json (s : string) : option (json * string) :=
  match skip_ws s with
  | String "{" s' =>
      match skip_ws s' with
      | String "}" s'' => Some (JObj [], s'')
      | _ =>
          m ← read_member s';
          p ← read_members (String.length s) [(m.1.1, m.1.2)] m.2;
          Some (JObj p.1, p.2)
      end
  | _ => p ← read_value s; Some (JVal p.1, p.2)
  end.

Definition loads (s : string) : option json :=
  p ← read_json s;
  match skip_ws p.2 with
  | "" => Some p.1
  | _ => None
  end.

End Json.

(** ** The store, its commands and the merge driver *)

(** The [.todos] directory of a checkout: whether it exists, and the text of
    its two files ([None]: no such file). *)
Record store : Type := Store {
  repo_dir : bool;
  todos_file : option string;
  closed_file : option string
}.

(** [ensure_repo] *)
Definition ensure_repo (st : store) : result unit :=
  if repo_dir st then Ok () else Die "not initialized (run `todo init`)".

(** The keys of a mapping, [list(todos)]. *)
Definition keys (todos : dict) : list string := (map_to_list todos).*1.

(** [[t_id for t_id in todos if t_id.startswith(needle)]] *)
Definition matches (todos : dict) (needle : string) : list string :=
  filter (λ t_id, startswith t_id needle) (keys todos).

(** [resolve_id] *)
Definition resolve_id (todos : dict) (needle : string) : result string :=
  if decide (is_Some (todos !! needle)) then Ok needle
  else
    match matches todos needle with
    | [] => Die "unknown id"
    | [t_id] => Ok t_id
    | ms => Die ("ambiguous id: " +:+ join ", " (sorted ms))
    end.

(** [all(d in todos and todos[d]["status"] == "closed" for d in deps)];
    [all] stops at the first false. *)
Fixpoint all_closed (todos : dict) (deps : list string) : result bool :=
  match deps with
  | [] => Ok true
  | d :: deps' =>
      match todos !! d with
      | None => Ok false
      | Some t =>
          status ← getitem "status" t;
          if decide (status = VStr "closed") then all_closed todos deps'
          else Ok false
      end
  end.

(** The two tests of the loop of [cmd_ready] on one record. *)
Definition is_ready (todos : dict) (t : record) : result bool :=
  status ← getitem "status" t;
  if decide (status = VStr "open") then
    deps ← getitem "deps" t; all_closed todos (iter deps)
  else Ok false.

(** The loop of [cmd_ready] over [todos.values()]. *)
Fixpoint ready_loop (todos : dict) (ts : list record) : result (list record) :=
  match ts with
  | [] => Ok []
  | t :: ts' =>
      b ← is_ready todos t;
      ready ← ready_loop todos ts';
      Ok (if b : bool then t :: ready else ready)
  end.

(** The sort key [x["id"]]; a key of a loaded mapping is a string. *)
Definition id_key (x : record) : result string :=
  match get "id" x with
  | Some (VStr s) => Ok s
  | _ => Raise
  end.

Fixpoint with_keys (l : list record) : result (list (string * record)) :=
  match l with
  | [] => Ok []
  | x :: l' => k ← id_key x; kl ← with_keys l'; Ok ((k, x) :: kl)
  end.

Definition key_le (a b : string * record) : Prop := String.le a.1 b.1.

#[global] Instance key_le_dec : RelDecision key_le.
Proof. intros a b. unfold key_le. apply _. Defined.

(** [sorted(ready, key=lambda x: x["id"])] *)
Definition sorted_by_id (l : list record) : result (list record) :=
  kl ← with_keys l; Ok ((merge_sort key_le kl).*2).

(** One round of the loop of [cmd_merge]. *)
Definition merge_step (ours theirs : dict) (_id : string) (merged : dict)
    : result dict :=
  match truthy (ours !! _id), truthy (theirs !! _id) with
  | None, None => Ok merged
  | Some a, None => Ok (<[_id := a]> merged)
  | None, Some b => Ok (<[_id := b]> merged)
  | Some a, Some b =>
      ta ← getitem "updated_at" a;
      tb ← getitem "updated_at" b;
      ge ← py_ge ta tb;
      Ok (if ge : bool then <[_id := a]> merged else <[_id := b]> merged)
  end.

Fixpoint merge_loop (ours theirs : dict) (ids : list string) (merged : dict)
    : result dict :=
  match ids with
  | [] => Ok merged
  | _id :: ids' =>
      merged ← merge_step ours theirs _id merged;
      merge_loop ours theirs ids' merged
  end.

(** The dict literal of [cmd_new]. *)
Definition new_item (now _id title : string) : record :=
  [("id", VStr _id); ("title", VStr title); ("summary", VStr "");
   ("status", VStr "open"); ("deps", VList []); ("updated_at", VStr now)].

(** The two functions of the [json] module the store calls: [json.loads]
    ([None]: it raises) and [json.dumps] with the separators of the program. *)
Class Codec : Type := {
  json_loads : string → option json;
  json_dumps : record → string
}.

Section Store.

Context `{!Codec}.

(** The loop of [load_todos] over the lines of the file. *)
Fixpoint load_lines (lines : list string) (todos : dict) : result dict :=
  match lines with
  | [] => Ok todos
  | line :: lines' =>
      let line := strip line in
      if decide (line = "") then load_lines lines' todos
      else
        match json_loads line with
        | Some (JObj obj) =>
            match get "id" obj with
            | Some (VStr _id) => load_lines lines' (<[_id := obj]> todos)
            | _ => Raise (* no "id": KeyError; a list: unhashable *)
            end
        | _ => Raise (* JSONDecodeError; [obj["id"]] on what is no dict *)
        end
  end.

(** [load_todos] *)
Definition load_todos (file : option string) : result dict :=
  match file with
  | None => Ok ∅
  | Some text => load_lines (readlines text) ∅
  end.

(** The loop of [write_todos] over [sorted(todos)]. *)
Fixpoint write_lines (todos : dict) (ids : list string) : string :=
  match ids with
  | [] => ""
  | _id :: ids' =>
      (json_dumps (todos !!! _id) +:+ newline) +:+ write_lines todos ids'
  end.

(** The text [write_todos] writes: the file holds it once the temporary
    file has been moved onto it. *)
Definition todos_text (todos : dict) : string :=
  write_lines todos (sorted (keys todos)).

(** [write_todos] on a file system (path to text).  It starts with
    [os.makedirs(os.path.dirname(path), exist_ok=True)], which raises on the
    empty directory name of a path without a "/".  The two files of the
    store are in the directory [.todos]: the commands below write them with
    [todos_text]. *)
Definition write_todos (todos : dict) (path : string) (fs : gmap string string)
    : result (gmap string string) :=
  if has_dirname path then Ok (<[path := todos_text todos]> fs) else Raise.

(** [cmd_init], without its registration of the merge driver. *)
Definition cmd_init (st : store) : store :=
  {| repo_dir := true;
     todos_file := Some (default (todos_text ∅) (todos_file st));
     closed_file := Some (default (todos_text ∅) (closed_file st)) |}.

(** [cmd_new]; [hex8] is [uuid.uuid4().hex[:8]].  It returns the store and
    the id it prints. *)
Definition cmd_new (now hex8 title : string) (st : store)
    : result (store * string) :=
  _ ← ensure_repo st;
  todos ← load_todos (todos_file st);
  let _id := "td-" +:+ hex8 in
  let todos := <[_id := new_item now _id title]> todos in
  Ok ({| repo_dir := repo_dir st;
         todos_file := Some (todos_text todos);
         closed_file := closed_file st |}, _id).

(** The mutation of [cmd_close] on the two loaded mappings. *)
Definition close_item (now _id : string) (todos closed : dict) : dict * dict :=
  let todos := <[_id := setitem "status" (VStr "closed") (todos !!! _id)]> todos in
  let todos := <[_id := setitem "updated_at" (VStr now) (todos !!! _id)]> todos in
  let closed := <[_id := todos !!! _id]> closed in
  let todos := delete _id todos in
  (todos, closed).

(** [cmd_close] *)
Definition cmd_close (now needle : string) (st : store) : result store :=
  _ ← ensure_repo st;
  todos ← load_todos (todos_file st);
  _id ← resolve_id todos needle;
  closed ← load_todos (closed_file st);
  let tc := close_item now _id todos closed in
  Ok {| repo_dir := repo_dir st;
        todos_file := Some (todos_text tc.1);
        closed_file := Some (todos_text tc.2) |}.

(** The mutation of [cmd_dep] on the loaded mapping. *)
Definition add_dep (now child_id parent_id : string) (todos : dict)
    : result dict :=
  deps ← getitem "deps" (todos !!! child_id);
  match deps with
  | VList l =>
      if decide (parent_id ∈ l) then Ok todos
      else
        let l := sorted (l ++ [parent_id]) in
        let todos := <[child_id := setitem "deps" (VList l) (todos !!! child_id)]> todos in
        Ok (<[child_id := setitem "updated_at" (VStr now) (todos !!! child_id)]> todos)
  | VStr s =>
      (* a string has no [append] *)
      if contains s parent_id then Ok todos else Raise
  end.

(** [cmd_dep] *)
Definition cmd_dep (now child parent : string) (st : store) : result store :=
  _ ← ensure_repo st;
  todos ← load_todos (todos_file st);
  child_id ← resolve_id todos child;
  parent_id ← resolve_id todos parent;
  todos ← add_dep now child_id parent_id todos;
  Ok {| repo_dir := repo_dir st;
        todos_file := Some (todos_text todos);
        closed_file := closed_file st |}.

(** The mutation of [cmd_summary] on the loaded mapping. *)
Definition set_summary (now _id text : string) (todos : dict) : dict :=
  let todos := <[_id := setitem "summary" (VStr text) (todos !!! _id)]> todos in
  <[_id := setitem "updated_at" (VStr now) (todos !!! _id)]> todos.

(** [cmd_summary] *)
Definition cmd_summary (now needle text : string) (st : store) : result store :=
  _ ← ensure_repo st;
  todos ← load_todos (todos_file st);
  _id ← resolve_id todos needle;
  Ok {| repo_dir := repo_dir st;
        todos_file := Some (todos_text (set_summary now _id text todos));
        closed_file := closed_file st |}.

(** [cmd_ready]: the list [ready] it prints, in the order it prints it.
    The loop meets the records in the order of the file; the sort that
    follows is by ids, which differ from record to record of a loaded
    mapping, so that order does not show. *)
Definition cmd_ready (st : store) : result (list record) :=
  _ ← ensure_repo st;
  todos ← load_todos (todos_file st);
  ready ← ready_loop todos (map_to_list todos).*2;
  sorted_by_id ready.

(** [cmd_merge] on a file system (path to text); [visit] is the order in
    which the loop meets the elements of the set of ids. *)
Definition cmd_merge (visit : gset string → list string)
    (base ours theirs : string) (fs : gmap string string)
    : result (gmap string string) :=
  b ← load_todos (fs !! base);
  o ← load_todos (fs !! ours);
  t ← load_todos (fs !! theirs);
  merged ← merge_loop o t (visit (dom b ∪ dom o ∪ dom t)) ∅;
  write_todos merged ours fs.

End Store.

(** ** Notions the properties are stated with *)

(** A text without a line end. *)
Fixpoint one_line (s : string) : bool :=
  match s with
  | "" => true
  | String c s' => if decide (c = nl) then false else one_line s'
  end.

(** A record [cmd_ready] can test: it has a status and deps. *)
Definition has_fields (obj : record) : Prop :=
  is_Some (get "status" obj) ∧ is_Some (get "deps" obj).

#[global] Instance has_fields_dec obj : Decision (has_fields obj).
Proof. unfold has_fields. apply _. Defined.

(** A record whose [updated_at] is a string. *)
Definition has_time (obj : record) : Prop :=
  match get "updated_at" obj with
  | Some (VStr _) => True
  | _ => False
  end.

#[global] Instance has_time_dec obj : Decision (has_time obj).
Proof. unfold has_time. destruct (get "updated_at" obj) as [[]|]; apply _. Defined.

(** The record the loop of [cmd_merge] keeps for an id, if it keeps one. *)
Definition merge_choice (ours theirs : dict) (_id : string)
    : result (option record) :=
  match truthy (ours !! _id), truthy (theirs !! _id) with
  | None, None => Ok None
  | Some a, None => Ok (Some a)
  | None, Some b => Ok (Some b)
  | Some a, Some b =>
      ta ← getitem "updated_at" a;
      tb ← getitem "updated_at" b;
      ge ← py_ge ta tb;
      Ok (Some (if ge : bool then a else b))
  end.

Definition keep (_id : string) (c : option record) (merged : dict) : dict :=
  match c with
  | Some obj => <[_id := obj]> merged
  | None => merged
  end.

Section Laws.

Context `{!Codec}.

(** What the store needs of the codec on one record: [json.dumps] prints
    it on one line that is not blank and has no blank at either end, and
    [json.loads] reads that line back. *)
Definition codec_ok (obj : record) : Prop :=
  json_loads (json_dumps obj) = Some (JObj obj)
  ∧ strip (json_dumps obj) = json_dumps obj
  ∧ json_dumps obj ≠ ""
  ∧ one_line (json_dumps obj) = true.

#[global] Instance codec_ok_dec obj : Decision (codec_ok obj).
Proof. unfold codec_ok. apply _. Defined.

(** The id of the record a line of a file holds, if it holds one. *)
Definition line_id (line : string) : option string :=
  let line := strip line in
  if decide (line = "") then None
  else
    match json_loads line with
    | Some (JObj obj) =>
        match get "id" obj with
        | Some (VStr _id) => Some _id
        | _ => None
        end
    | _ => None
    end.

End Laws.

(** The codec of the examples. *)
Definition python_json : Codec :=
  {| json_loads := Json.loads; json_dumps := Json.dumps |}.

(** ** Concrete stores *)

Module Demo.

#[local] Existing Instance python_json.

Definition t0 : string := "2024-01-01T00:00:00Z".
Definition t1 : string := "2024-01-01T00:00:01Z".
Definition t2 : string := "2024-01-01T00:00:02Z".
Definition t3 : string := "2024-01-01T00:00:03Z".
Definition t9 : string := "2024-01-01T00:00:09Z".

Definition id_a : string := "td-aaaaaaaa".
Definition id_b : string := "td-bbbbbbbb".

(** [todo init] where there is no store yet. *)
Definition fresh : store := cmd_init (Store false None None).

Definition item_a : record := new_item t0 id_a "write spec".
Definition item_b : record := new_item t1 id_b "review spec".

(** [item_b] once it depends on [item_a]. *)
Definition item_b_dep : record :=
  setitem "updated_at" (VStr t2) (setitem "deps" (VList [id_a]) item_b).

Definition item_a_closed : record :=
  setitem "updated_at" (VStr t3) (setitem "status" (VStr "closed") item_a).

(** [item_a] with another title and a later time. *)
Definition item_a_late : record :=
  setitem "updated_at" (VStr t9) (setitem "title" (VStr "write the spec") item_a).

Definition one_open : dict := {[ id_a := item_a ]}.
Definition both_open : dict := <[id_a := item_a]> {[ id_b := item_b ]}.
Definition both_dep : dict := <[id_a := item_a]> {[ id_b := item_b_dep ]}.

(** The store after [new "write spec"]. *)
Definition one_item : store :=
  Store true (Some (todos_text one_open)) (Some "").

(** The store after [new "write spec"] and [new "review spec"]. *)
Definition two_open : store :=
  Store true (Some (todos_text both_open)) (Some "").

(** Then [dep td-b td-a]. *)
Definition with_dep : store :=
  Store true (Some (todos_text both_dep)) (Some "").

(** Then [close td-a]. *)
Definition a_closed : store :=
  Store true (Some (todos_text {[ id_b := item_b_dep ]}))
             (Some (todos_text {[ id_a := item_a_closed ]})).

(** The two ids of the ambiguous-prefix scenario. *)
Definition twins : dict :=
  <["td-aaaa1111" := new_item t0 "td-aaaa1111" "one"]>
    {[ "td-aaaa2222" := new_item t1 "td-aaaa2222" "two" ]}.

(** A file with a line that is not JSON after a record. *)
Definition broken_line : string := "not json" +:+ newline.
Definition broken : string := todos_text one_open +:+ broken_line.

(** A file with a record that has no id after one that has. *)
Definition anonymous_line : string :=
  json_dumps [("title", VStr "write spec")] +:+ newline.
Definition anonymous : string := todos_text one_open +:+ anonymous_line.

(** A file whose two records have the same id. *)
Definition late_line : string := json_dumps item_a_late +:+ newline.
Definition twice : string := todos_text one_open +:+ late_line.

(** The three files of a merge: [item_a] is older in [ours] than in
    [theirs], [item_b] is in [ours] only. *)
Definition merge_ours : dict := both_open.
Definition merge_theirs : dict := {[ id_a := item_a_late ]}.
Definition merge_fs : gmap string string :=
  <["/tmp/base" := todos_text one_open]>
    (<["/tmp/ours" := todos_text merge_ours]>
       {[ "/tmp/theirs" := todos_text merge_theirs ]}).

(** Two orders in which a set can yield its elements. *)
Definition forwards (X : gset string) : list string := elements X.
Definition backwards (X : gset string) : list string := reverse (elements X).

End Demo.

(** ** Paths, the attributes file and the listing *)

(** [path.endswith("/")] *)
Fixpoint ends_with_slash (path : string) : bool :=
  match path with
  | "" => false
  | String c "" => bool_decide (c = "/"%char)
  | String _ path' => ends_with_slash path'
  end.

(** [os.path.join(a, b)] of [posixpath] *)
Definition path_join (a b : string) : string :=
  if startswith b "/" then b
  else if bool_decide (a = "") || ends_with_slash a then a +:+ b
  else a +:+ "/" +:+ b.

Definition TODOS_DIRNAME : string := ".todos".

(** [repo_root]; [toplevel] is what [git rev-parse --show-toplevel] printed,
    [None] when it failed. *)
Definition repo_root (toplevel : option string) : option string :=
  match toplevel with
  | None => None
  | Some out => let root := strip out in if decide (root = "") then None else Some root
  end.

(** [todos_paths]: the directory of the store and its two files. *)
Definition todos_paths (toplevel : option string) : string * string * string :=
  let base :=
    match repo_root toplevel with
    | Some (String c root) => path_join (String c root) TODOS_DIRNAME
    | _ => TODOS_DIRNAME
    end in
  (base, path_join base "todos.jsonl", path_join base "closed.jsonl").

(** The lines [cmd_init] registers in [.gitattributes]. *)
Definition entries : list string :=
  [".todos/todos.jsonl merge=todo" +:+ newline;
   ".todos/closed.jsonl merge=todo" +:+ newline].

(** The text of [.gitattributes] once [cmd_init] has run in a git checkout;
    [ga] is its text before, [None] when there is no such file. *)
Definition init_gitattributes (ga : option string) : string :=
  match ga with
  | Some existing =>
      let to_add := filter (λ e, contains existing e = false) entries in
      if decide (to_add = []) then existing else existing +:+ join "" to_add
  | None => join "" entries
  end.

(** The part of [cmd_init] on [.gitattributes]: outside a git checkout the
    file is left alone. *)
Definition cmd_init_gitattributes (toplevel ga : option string) : option string :=
  match repo_root toplevel with
  | Some (String _ _) => Some (init_gitattributes ga)
  | _ => ga
  end.

#[global] Instance key_le_total : Total key_le.
Proof. intros a b. unfold key_le. apply (total String.le). Defined.

(** Truth value of [t.get("summary")]: [None], the empty string and the
    empty list are false. *)
Definition value_truthy (v : option value) : bool :=
  match v with
  | Some (VStr (String _ _)) | Some (VList (_ :: _)) => true
  | _ => false
  end.

(** A loop of [print] calls over [items]: the lines it leaves on stdout, and
    how it ended. *)
Fixpoint print_each (line : record → result string) (items : list record)
    : list string * result unit :=
  match items with
  | [] => ([], Ok ())
  | t :: items' =>
      match line t with
      | Ok s => let out := print_each line items' in (s :: out.1, out.2)
      | Die msg => ([], Die msg)
      | Raise => ([], Raise)
      end
  end.

(** The text on stdout after these lines have been printed. *)
Fixpoint printed (lines : list string) : string :=
  match lines with
  | [] => ""
  | line :: lines' => (line +:+ newline) +:+ printed lines'
  end.

Section Listing.

Context `{!Codec}.

(** [str(l)] of a list, which an f-string puts for a field that holds one:
    the [repr] of Python, outside the repository. *)
Variable str_list : list string → string.

(** A field in an f-string. *)
Definition format (v : value) : string :=
  match v with
  | VStr s => s
  | VList l => str_list l
  end.

(** The line of [cmd_list] for one item, without [--json]. *)
Definition text_line (t : record) : result string :=
  deps ← getitem "deps" t;
  let deps := join "," (iter deps) in
  summary ← (if value_truthy (get "summary" t)
             then s ← getitem "summary" t; Ok (": " +:+ format s)
             else Ok "");
  _id ← getitem "id" t;
  status ← getitem "status" t;
  title ← getitem "title" t;
  Ok ((format _id +:+ " [" +:+ format status +:+ "] " +:+ format title +:+ summary)
      +:+ (if decide (deps = "") then "" else " <- " +:+ deps)).

(** The line of [cmd_list] for one item. *)
Definition item_line (json : bool) (t : record) : result string :=
  if json then Ok (json_dumps t) else text_line t.

(** [cmd_list]; [closed] and [json] are its two flags. *)
Definition cmd_list (closed json : bool) (st : store) : list string * result unit :=
  let items :=
    _ ← ensure_repo st;
    todos ← load_todos (if closed then closed_file st else todos_file st);
    sorted_by_id (map_to_list todos).*2 in
  match items with
  | Ok items => print_each (item_line json) items
  | Die msg => ([], Die msg)
  | Raise => ([], Raise)
  end.

(** The line of [cmd_ready] for one item. *)
Definition ready_line (json : bool) (t : record) : result string :=
  if json then Ok (json_dumps t)
  else _id ← getitem "id" t; title ← getitem "title" t;
       Ok (format _id +:+ " " +:+ format title).

(** What [cmd_ready] prints; [json] is its flag. *)
Definition print_ready (json : bool) (st : store) : list string * result unit :=
  match cmd_ready st with
  | Ok ready => print_each (ready_line json) ready
  | Die msg => ([], Die msg)
  | Raise => ([], Raise)
  end.

End Listing.

(** ** More concrete stores *)

Module Cases.

#[local] Existing Instance python_json.

Import Demo.

(** [str(l)] of a list of strings without quotes, backslashes or control
    characters. *)
Definition str_plain (l : list string) : string :=
  "[" +:+ join ", " ((λ s, "'" +:+ s +:+ "'") <$> l) +:+ "]".

(** An open file that holds a record with status "closed", as a merge can
    leave it, and a record that depends on it. *)
Definition closed_among_open : store :=
  Store true (Some (todos_text (<[id_a := item_a_closed]> {[ id_b := item_b_dep ]})))
             (Some "").

(** [item_a] with a summary. *)
Definition item_a_done : record :=
  setitem "updated_at" (VStr t2) (setitem "summary" (VStr "first draft") item_a).

(** The text of a file with two records, and the same with a line of two
    blanks between them. *)
Definition unspaced : string :=
  (json_dumps item_a +:+ newline) +:+ (json_dumps item_b +:+ newline).
Definition spaced : string :=
  (json_dumps item_a +:+ newline) +:+ ("  " +:+ newline)
  +:+ (json_dumps item_b +:+ newline).

(** Two sides of a merge that changed different items. *)
Definition side_one : dict := <[id_a := item_a_late]> {[ id_b := item_b ]}.
Definition side_two : dict := <[id_a := item_a]> {[ id_b := item_b_dep ]}.
Definition sides_fs : gmap string string :=
  <["/tmp/base" := todos_text both_open]>
    (<["/tmp/ours" := todos_text side_one]>
       {[ "/tmp/theirs" := todos_text side_two ]}).

End Cases.

(** ** Tactics *)

(** One step of a sequence of fallible calls. *)
Ltac bind_step := cbn [mbind result_mbind result_bind].

(** Decides a closed proposition by running its decision procedure. *)
Ltac by_compute := apply (bool_decide_unpack _); vm_compute; exact I.

(** Evaluates the two sides of a closed equation. *)
Ltac run := vm_compute; reflexivity.

(** Reads a field through the writes made after it; the equations of [get]
    on [setitem] are in the rewrite database [record]. *)
Create Rewrite HintDb record.
Ltac read_field := autorewrite with record; try reflexivity.

(** * Properties *)

(** ** The model on small inputs *)

Example strip_blanks : strip ("  ab c " +:+ newline) = "ab c".
Proof. reflexivity. Qed.

Example strip_blank_line : strip ("   " +:+ newline) = "".
Proof. reflexivity. Qed.

Example readlines_three :
  readlines ("ab" +:+ newline +:+ newline +:+ "c")
  = ["ab" +:+ newline; newline; "c"].
Proof. reflexivity. Qed.

Example sorted_ids : sorted ["td-b"; "td-a1"; "td-a"] = ["td-a"; "td-a1"; "td-b"].
Proof. reflexivity. Qed.

Example has_dirname_store : has_dirname ".todos/todos.jsonl" = true.
Proof. reflexivity. Qed.

Example has_dirname_bare : has_dirname ".merge_file_a1b2c3" = false.
Proof. reflexivity. Qed.

Example py_ge_times :
  py_ge (VStr "2024-01-01T00:00:09Z") (VStr "2024-01-01T00:00:10Z") = Ok false
  ∧ py_ge (VStr "2024-01-01T00:00:10Z") (VStr "2024-01-01T00:00:10Z") = Ok true
  ∧ py_ge (VStr "2024") (VList []) = Raise.
Proof. repeat split. Qed.

Example resolve_twins :
  resolve_id Demo.twins "td-aaaa" = Die "ambiguous id: td-aaaa1111, td-aaaa2222"
  ∧ resolve_id Demo.twins "td-aaaa2" = Ok "td-aaaa2222"
  ∧ resolve_id Demo.twins "td-aaaa1111" = Ok "td-aaaa1111"
  ∧ resolve_id Demo.twins "" = Die "ambiguous id: td-aaaa1111, td-aaaa2222".
Proof. repeat split; run. Qed.

(** The codec of the examples on a record with a quote, a backslash, a line
    end and a character above 127 in its title. *)
Example json_escapes :
  let obj := [("id", VStr "td-0");
              ("title", VStr (String "034" (String "092" (String "010" (String "233" "")))));
              ("deps", VList ["a"; "b"])] in
  Json.loads (Json.dumps obj) = Some (JObj obj)
  ∧ one_line (Json.dumps obj) = true
  ∧ String.length (Json.dumps obj) = 53.
Proof. repeat split. Qed.

(** ** Lines and blanks *)

Lemma app_cons c s t : String c s +:+ t = String c (s +:+ t).
Proof. reflexivity. Qed.

Lemma rstrip_newline s : rstrip (s +:+ newline) = rstrip s.
Proof.
  induction s as [|c s IH]; [reflexivity|].
  rewrite app_cons. simpl. by rewrite IH.
Qed.

(** The line end of a line never survives [strip]. *)
Lemma strip_newline s : strip (s +:+ newline) = strip s.
Proof. unfold strip. by rewrite rstrip_newline. Qed.

Lemma readlines_line s rest :
  one_line s = true →
  readlines ((s +:+ newline) +:+ rest) = (s +:+ newline) :: readlines rest.
Proof.
  induction s as [|c s IH]; intros Hs; [reflexivity|].
  simpl in Hs. rewrite !app_cons. cbn [readlines].
  destruct (decide (c = nl)); [done|]. by rewrite IH.
Qed.

Lemma startswith_refl s : startswith s s.
Proof.
  unfold startswith. induction s as [|c s IH]; [done|].
  cbn. by destruct (ascii_dec c c).
Qed.

Lemma sorted_Permutation l : sorted l ≡ₚ l.
Proof. apply merge_sort_Permutation. Qed.

Lemma sorted_Sorted l : Sorted String.le (sorted l).
Proof. apply (Sorted_merge_sort String.le). Qed.

(** ** Records *)

Lemma get_setitem_eq k v obj : get k (setitem k v obj) = Some v.
Proof.
  induction obj as [|[k' v'] obj IH]; cbn.
  - by rewrite decide_True.
  - destruct (decide (k = k')); cbn; [by rewrite decide_True|by rewrite decide_False].
Qed.

Lemma get_setitem_ne k k' v obj : k ≠ k' → get k (setitem k' v obj) = get k obj.
Proof.
  intros Hne. induction obj as [|[k'' v''] obj IH]; cbn.
  - by rewrite decide_False.
  - destruct (decide (k' = k'')) as [<-|]; cbn.
    + by rewrite !decide_False.
    + by destruct (decide (k = k'')).
Qed.

#[local] Hint Rewrite get_setitem_eq : record.
#[local] Hint Rewrite get_setitem_ne using discriminate : record.

Lemma has_time_get obj : has_time obj → ∃ t, get "updated_at" obj = Some (VStr t).
Proof.
  unfold has_time. destruct (get "updated_at" obj) as [[t|]|]; [by exists t|done..].
Qed.

(** ** The keys of a mapping *)

Lemma elem_of_keys (todos : dict) k : k ∈ keys todos ↔ is_Some (todos !! k).
Proof.
  unfold keys. rewrite list_elem_of_fmap. split.
  - intros [[k' obj] [-> Hin]]. apply elem_of_map_to_list in Hin. by eexists.
  - intros [obj Hobj]. exists (k, obj). split; [done|]. by apply elem_of_map_to_list.
Qed.

Lemma NoDup_keys (todos : dict) : NoDup (keys todos).
Proof. apply NoDup_fst_map_to_list. Qed.

Lemma elem_of_values (todos : dict) t :
  t ∈ (map_to_list todos).*2 ↔ ∃ k, todos !! k = Some t.
Proof.
  rewrite list_elem_of_fmap. split.
  - intros [[k t'] [-> Hin]]. exists k. by apply elem_of_map_to_list.
  - intros [k Hk]. exists (k, t). split; [done|]. by apply elem_of_map_to_list.
Qed.

(** ** The identifier resolver *)

Section Resolver.

Variable todos : dict.
Variable needle : string.

Lemma elem_of_matches k :
  k ∈ matches todos needle ↔ is_Some (todos !! k) ∧ startswith k needle.
Proof. unfold matches. rewrite list_elem_of_filter, elem_of_keys. tauto. Qed.

Lemma NoDup_matches : NoDup (matches todos needle).
Proof. apply NoDup_filter, NoDup_keys. Qed.

Lemma resolve_id_exact :
  is_Some (todos !! needle) → resolve_id todos needle = Ok needle.
Proof. intros Hin. unfold resolve_id. by rewrite decide_True. Qed.

(** What [resolve_id] returns is a key of the mapping. *)
Lemma resolve_id_in _id :
  resolve_id todos needle = Ok _id → is_Some (todos !! _id).
Proof.
  unfold resolve_id. destruct (decide (is_Some (todos !! needle))) as [Hin|Hout].
  - by intros [= <-].
  - pose proof elem_of_matches as Hel.
    destruct (matches todos needle) as [|t [|t' ms]]; try done.
    intros [= <-]. apply Hel. by left.
Qed.

Lemma resolve_id_unknown :
  map_Forall (λ k _, startswith k needle = false) todos →
  resolve_id todos needle = Die "unknown id".
Proof.
  intros Hno.
  assert (Hnone : ∀ k, is_Some (todos !! k) → ¬ startswith k needle).
  { intros k [obj Hk] Hp. apply Hno in Hk. by rewrite Hk in Hp. }
  unfold resolve_id. rewrite decide_False.
  - pose proof elem_of_matches as Hel.
    destruct (matches todos needle) as [|t ms]; [done|].
    destruct (proj1 (Hel t)) as [Hin Hp]; [by left|]. by destruct (Hnone t).
  - intros Hin. apply (Hnone needle Hin), startswith_refl.
Qed.

(** C4.  [resolve_id] returns the partial id itself when it is a stored
    id, whatever other ids it is a prefix of.  Otherwise it fails with
    "unknown id" when no stored id starts with it, returns the stored id
    that starts with it when there is exactly one, and fails with
    "ambiguous id" when there are two or more: the message then lists,
    sorted and once each, exactly the stored ids that start with it. *)
Theorem resolve_id_spec :
  (is_Some (todos !! needle) → resolve_id todos needle = Ok needle)
  ∧ (todos !! needle = None →
      (map_Forall (λ k _, startswith k needle = false) todos →
         resolve_id todos needle = Die "unknown id")
      ∧ (∀ k, is_Some (todos !! k) → startswith k needle →
           (∀ k', is_Some (todos !! k') → startswith k' needle → k' = k) →
           resolve_id todos needle = Ok k)
      ∧ (∀ k1 k2, k1 ≠ k2 →
           is_Some (todos !! k1) → startswith k1 needle →
           is_Some (todos !! k2) → startswith k2 needle →
           ∃ candidates,
             resolve_id todos needle
             = Die ("ambiguous id: " +:+ join ", " candidates)
             ∧ Sorted String.le candidates ∧ NoDup candidates
             ∧ ∀ k, k ∈ candidates
                    ↔ is_Some (todos !! k) ∧ startswith k needle)).
Proof.
  split; [apply resolve_id_exact|].
  intros Hnone. split; [apply resolve_id_unknown|].
  assert (Hout : ¬ is_Some (todos !! needle)) by (rewrite Hnone; by intros [? ?]).
  pose proof NoDup_matches as Hnd. pose proof elem_of_matches as Hel.
  split.
  - intros k Hk Hp Huniq. unfold resolve_id. rewrite decide_False by done.
    destruct (matches todos needle) as [|t [|t' ms]].
    + assert (Hin : k ∈ @nil string) by (by apply Hel). by apply elem_of_nil in Hin.
    + f_equal. apply Huniq; apply Hel; left.
    + apply NoDup_cons in Hnd as [Hnotin _]. destruct Hnotin.
      assert (t = k) as -> by (apply Huniq; apply Hel; left).
      assert (t' = k) as -> by (apply Huniq; apply Hel; right; left).
      left.
  - intros k1 k2 Hne H1 P1 H2 P2. unfold resolve_id.
    rewrite decide_False by done. fold matches.
    destruct (matches todos needle) as [|t [|t' ms]] eqn:E.
    + assert (Hin : k1 ∈ @nil string) by (by apply Hel). by apply elem_of_nil in Hin.
    + destruct Hne.
      assert (k1 ∈ [t]) as ->%list_elem_of_singleton by (by apply Hel).
      assert (k2 ∈ [t]) as ->%list_elem_of_singleton by (by apply Hel).
      done.
    + eexists. split; [done|]. split; [apply sorted_Sorted|]. split.
      * by rewrite sorted_Permutation.
      * intros k. rewrite sorted_Permutation. apply Hel.
Qed.

End Resolver.

(** ** Loading and writing *)

Section Loading.

Context `{!Codec}.

Lemma load_lines_cons_record line lines todos obj _id :
  strip line ≠ "" → json_loads (strip line) = Some (JObj obj) →
  get "id" obj = Some (VStr _id) →
  load_lines (line :: lines) todos = load_lines lines (<[_id := obj]> todos).
Proof.
  intros E L G. cbn [load_lines]. rewrite decide_False by done. by rewrite L, G.
Qed.

(** One step of the loop, by the id the line carries. *)
Lemma load_lines_cons line lines todos :
  load_lines (line :: lines) todos
  = if decide (strip line = "") then load_lines lines todos
    else match line_id line, json_loads (strip line) with
         | Some _id, Some (JObj obj) => load_lines lines (<[_id := obj]> todos)
         | _, _ => Raise
         end.
Proof.
  cbn [load_lines]. unfold line_id.
  destruct (decide (strip line = "")); [done|].
  destruct (json_loads (strip line)) as [[obj|]|]; try done.
  by destruct (get "id" obj) as [[_id|]|].
Qed.

Lemma load_lines_app l1 l2 todos :
  load_lines (l1 ++ l2) todos = load_lines l1 todos ≫= load_lines l2.
Proof.
  revert todos. induction l1 as [|line l1 IH]; intros todos; [done|].
  rewrite <- app_comm_cons, !load_lines_cons.
  destruct (decide (strip line = "")); [apply IH|].
  destruct (line_id line), (json_loads (strip line)) as [[obj|]|]; auto.
Qed.

(** [load_todos] has no call of [die]. *)
Lemma load_lines_no_die lines todos msg : load_lines lines todos ≠ Die msg.
Proof.
  revert todos. induction lines as [|line lines IH]; intros todos; [done|].
  rewrite load_lines_cons. destruct (decide (strip line = "")); [apply IH|].
  destruct (line_id line), (json_loads (strip line)) as [[obj|]|]; auto.
Qed.

(** A line that is not blank and carries no id fails the load, wherever it
    stands in the file. *)
Lemma load_lines_bad line lines todos :
  line ∈ lines → strip line ≠ "" → line_id line = None →
  load_lines lines todos = Raise.
Proof.
  intros [l1 [l2 ->]]%list_elem_of_split Hne Hid.
  rewrite load_lines_app.
  destruct (load_lines l1 todos) as [m| |] eqn:E;
    [|by apply load_lines_no_die in E|done].
  bind_step. rewrite load_lines_cons, Hid. by rewrite decide_False.
Qed.

Lemma load_lines_good lines todos :
  Forall (λ l, strip l = "" ∨ is_Some (line_id l)) lines →
  ∃ todos', load_lines lines todos = Ok todos'.
Proof.
  revert todos. induction lines as [|line lines IH]; intros todos Hall; [by eexists|].
  apply Forall_cons in Hall as [Hl Hall]. cbn [load_lines].
  destruct (decide (strip line = "")) as [|Hne]; [by apply IH|].
  destruct Hl as [|[i Hi]]; [done|]. unfold line_id in Hi.
  rewrite decide_False in Hi by done.
  destruct (json_loads (strip line)) as [[obj|]|]; try done.
  destruct (get "id" obj) as [[_id|]|]; try done. by apply IH.
Qed.

(** Lines that do not carry an id leave its binding alone. *)
Lemma load_lines_other lines todos todos' k :
  load_lines lines todos = Ok todos' →
  Forall (λ l, line_id l ≠ Some k) lines →
  todos' !! k = todos !! k.
Proof.
  revert todos. induction lines as [|line lines IH]; intros todos Hload Hall.
  - by injection Hload as ->.
  - apply Forall_cons in Hall as [Hl Hall]. cbn [load_lines] in Hload.
    unfold line_id in Hl.
    destruct (decide (strip line = "")) as [|Hne]; [by apply IH|].
    destruct (json_loads (strip line)) as [[obj|]|]; try done.
    destruct (get "id" obj) as [[_id|]|]; try done.
    rewrite (IH _ Hload Hall). apply lookup_insert_ne. congruence.
Qed.

(** Every record of a loaded mapping carries its key as its id. *)
Lemma load_lines_ids lines todos todos' :
  load_lines lines todos = Ok todos' →
  map_Forall (λ k obj, get "id" obj = Some (VStr k)) todos →
  map_Forall (λ k obj, get "id" obj = Some (VStr k)) todos'.
Proof.
  revert todos. induction lines as [|line lines IH]; intros todos Hload Hall.
  - by injection Hload as <-.
  - cbn [load_lines] in Hload.
    destruct (decide (strip line = "")) as [|Hne]; [by eapply IH|].
    destruct (json_loads (strip line)) as [[obj|]|]; try done.
    destruct (get "id" obj) as [[_id|]|] eqn:G; try done.
    eapply IH; [done|]. by apply map_Forall_insert_2.
Qed.

Lemma load_todos_ids file todos :
  load_todos file = Ok todos →
  map_Forall (λ k obj, get "id" obj = Some (VStr k)) todos.
Proof.
  destruct file as [text|]; cbn.
  - intros Hl. eapply load_lines_ids; [done|]. apply map_Forall_empty.
  - intros [= <-]. apply map_Forall_empty.
Qed.

(** C8.  [load_todos] on a file that does not exist, or is empty, returns
    the empty mapping.  On a file with a line that is not blank and that
    [json.loads] rejects, or that holds an object without an ["id"], it
    raises: no mapping is returned, whatever the other lines hold.  (A blank
    line is no record: the loop passes over it.) *)
Theorem load_todos_empty_or_fatal :
  load_todos None = Ok ∅
  ∧ load_todos (Some "") = Ok ∅
  ∧ ∀ text line,
      line ∈ readlines text → strip line ≠ "" →
      json_loads (strip line) = None
      ∨ (∃ obj, json_loads (strip line) = Some (JObj obj) ∧ get "id" obj = None) →
      load_todos (Some text) = Raise.
Proof.
  split; [done|]. split; [done|].
  intros text line Hin Hne Hbad. apply (load_lines_bad line); [done..|].
  unfold line_id. rewrite decide_False by done.
  destruct Hbad as [->|(obj & -> & ->)]; done.
Qed.

(** C10.  When every line of a file is blank or holds a record with an id,
    [load_todos] returns a mapping, and it binds an id to the record of the
    last line that carries it: the records of earlier lines with the same id
    are overwritten, and nothing is reported. *)
Theorem load_todos_last_wins text earlier line later obj _id :
  readlines text = earlier ++ line :: later →
  Forall (λ l, strip l = "" ∨ is_Some (line_id l)) (readlines text) →
  line_id line = Some _id →
  json_loads (strip line) = Some (JObj obj) →
  Forall (λ l, line_id l ≠ Some _id) later →
  ∃ todos, load_todos (Some text) = Ok todos ∧ todos !! _id = Some obj.
Proof.
  intros Hsplit Hgood Hid Hobj Hlater. unfold load_todos.
  rewrite Hsplit in Hgood |- *.
  apply Forall_app in Hgood as [Hearlier Hrest].
  apply Forall_cons in Hrest as [_ Hrest].
  destruct (load_lines_good earlier ∅ Hearlier) as [m1 H1].
  destruct (load_lines_good later (<[_id := obj]> m1) Hrest) as [m2 H2].
  exists m2. rewrite load_lines_app, H1. bind_step.
  rewrite load_lines_cons, Hid, Hobj.
  assert (strip line ≠ "") as Hne.
  { intros E. unfold line_id in Hid. by rewrite decide_True in Hid. }
  rewrite decide_False by done. split; [done|].
  rewrite (load_lines_other _ _ _ _ H2 Hlater). apply lookup_insert_eq.
Qed.

Lemma load_lines_written (todos : dict) ids m :
  Forall (λ k, codec_ok (todos !!! k) ∧ get "id" (todos !!! k) = Some (VStr k)) ids →
  load_lines (readlines (write_lines todos ids)) m
  = Ok (foldl (λ m k, <[k := todos !!! k]> m) m ids).
Proof.
  revert m. induction ids as [|k ids IH]; intros m Hall; [done|].
  apply Forall_cons in Hall as [[(Hl & Hs & Hne & H1) Hid] Hall].
  cbn [write_lines foldl]. rewrite readlines_line by done.
  rewrite (load_lines_cons_record _ _ _ (todos !!! k) k);
    rewrite ?strip_newline, ?Hs; auto.
Qed.

Lemma lookup_foldl_insert (todos : dict) ids (m : dict) k :
  foldl (λ m k, <[k := todos !!! k]> m) m ids !! k
  = if decide (k ∈ ids) then Some (todos !!! k) else m !! k.
Proof.
  revert m. induction ids as [|i ids IH]; intros m; cbn [foldl].
  - rewrite decide_False; [done|]. apply not_elem_of_nil.
  - rewrite IH. destruct (decide (k ∈ ids)) as [Hin|Hin].
    + rewrite decide_True; [done|]. by right.
    + destruct (decide (k = i)) as [->|Hne].
      * rewrite decide_True by left. apply lookup_insert_eq.
      * rewrite decide_False; [by apply lookup_insert_ne|].
        intros [?|?]%elem_of_cons; done.
Qed.

(** Loading what [write_todos] wrote gives the mapping back. *)
Lemma load_write (todos : dict) :
  map_Forall (λ k obj, get "id" obj = Some (VStr k)) todos →
  map_Forall (λ _ obj, codec_ok obj) todos →
  load_todos (Some (todos_text todos)) = Ok todos.
Proof.
  intros Hid Hcodec. unfold load_todos, todos_text.
  rewrite load_lines_written.
  - f_equal. apply map_eq. intros k. rewrite lookup_foldl_insert.
    destruct (todos !! k) as [obj|] eqn:E.
    + rewrite decide_True.
      * by rewrite (lookup_total_correct _ _ _ E).
      * rewrite sorted_Permutation. apply elem_of_keys. by eexists.
    + rewrite decide_False; [apply lookup_empty|].
      rewrite sorted_Permutation, elem_of_keys, E. by intros [? ?].
  - apply Forall_forall. intros k Hk.
    rewrite sorted_Permutation in Hk. apply elem_of_keys in Hk as [obj E].
    rewrite (lookup_total_correct _ _ _ E). split; [by eapply Hcodec|by apply Hid].
Qed.

(** The file [write_todos] leaves holds one line for each id, in the order of
    the ids. *)
Lemma readlines_write_lines (todos : dict) ids :
  Forall (λ k, one_line (json_dumps (todos !!! k)) = true) ids →
  readlines (write_lines todos ids)
  = (λ k, json_dumps (todos !!! k) +:+ newline) <$> ids.
Proof.
  induction ids as [|k ids IH]; intros Hall; [done|].
  apply Forall_cons in Hall as [Hk Hall]. cbn [write_lines fmap list_fmap].
  rewrite readlines_line by done. by rewrite IH.
Qed.

(** C5.  Take a mapping in which every record carries its key as its id,
    and whose records the codec prints on one line and reads back.  Writing
    it to a path that has a directory name succeeds, and loading that path
    then returns the mapping itself, with every field of every record as it
    was. *)
Theorem save_load_roundtrip (fs : gmap string string) (path : string) (todos : dict) :
  has_dirname path = true →
  map_Forall (λ k obj, get "id" obj = Some (VStr k)) todos →
  map_Forall (λ _ obj, codec_ok obj) todos →
  ∃ fs', write_todos todos path fs = Ok fs'
         ∧ load_todos (fs' !! path) = Ok todos.
Proof.
  intros Hdir Hid Hcodec. unfold write_todos. rewrite Hdir.
  eexists. split; [done|]. rewrite lookup_insert_eq. by apply load_write.
Qed.

End Loading.

(** ** The JSON codec of the examples

    It reads back what it prints, for every record whose field names are
    distinct: the assumptions the properties make of a codec hold of it. *)

Section JsonFacts.

Import Json.

Lemma str_app_assoc s t u : (s +:+ t) +:+ u = s +:+ (t +:+ u).
Proof. induction s as [|c s IH]; [done|]. by rewrite !app_cons, IH. Qed.

Lemma str_app_nil_r s : s +:+ "" = s.
Proof. induction s as [|c s IH]; [done|]. by rewrite app_cons, IH. Qed.

Lemma str_length_app s t :
  String.length (s +:+ t) = String.length s + String.length t.
Proof. induction s as [|c s IH]; [done|]. rewrite app_cons. cbn. by rewrite IH. Qed.

Lemma read_escape c rest :
  read_string (escape c +:+ rest)
  = p ← read_string rest; Some (String c p.1, p.2).
Proof. destruct c as [[] [] [] [] [] [] [] []]; reflexivity. Qed.

Lemma read_escape_all s rest :
  read_string (escape_all s +:+ String dq rest) = Some (s, rest).
Proof.
  induction s as [|c s IH]; [reflexivity|].
  cbn [escape_all]. by rewrite str_app_assoc, read_escape, IH.
Qed.

Lemma quote_app s rest :
  quote s +:+ rest = String dq (escape_all s +:+ String dq rest).
Proof. unfold quote. by rewrite app_cons, str_app_assoc. Qed.

Lemma join_elements x l :
  join "," (quote <$> (x :: l)) = quote x +:+ more_elements l.
Proof.
  revert x. induction l as [|y l IH]; intros x.
  - cbn. by rewrite str_app_nil_r.
  - change (join "," (quote <$> x :: y :: l))
      with (quote x +:+ "," +:+ join "," (quote <$> y :: l)).
    by rewrite IH.
Qed.

Lemma join_members f l :
  join "," (member <$> (f :: l)) = member f +:+ more_members l.
Proof.
  revert f. induction l as [|g l IH]; intros f.
  - cbn. by rewrite str_app_nil_r.
  - change (join "," (member <$> f :: g :: l))
      with (member f +:+ "," +:+ join "," (member <$> g :: l)).
    by rewrite IH.
Qed.

Lemma read_elements_more fuel x rest :
  read_elements (S fuel) ("," +:+ quote x +:+ rest)
  = q ← read_elements fuel rest; Some (x :: q.1, q.2).
Proof.
  rewrite quote_app. change ("," +:+ ?t) with (String "," t).
  cbn [read_elements skip_ws is_ws dq]. rewrite decide_True by done.
  by rewrite read_escape_all.
Qed.

Lemma read_more_elements l rest fuel :
  length l < fuel →
  read_elements fuel (more_elements l +:+ String "]" rest) = Some (l, rest).
Proof.
  revert fuel. induction l as [|x l IH]; intros [|fuel] Hf; try (cbn in Hf; lia).
  - reflexivity.
  - cbn [more_elements]. rewrite !str_app_assoc, read_elements_more.
    rewrite IH by (cbn in Hf; lia). done.
Qed.

Lemma length_more_elements l t :
  length l ≤ String.length (more_elements l +:+ t).
Proof.
  induction l as [|x l IH]; [cbn; lia|].
  cbn [more_elements]. rewrite !str_app_assoc.
  change ("," +:+ ?u) with (String "," u). rewrite quote_app. cbn.
  rewrite str_length_app. cbn. rewrite str_length_app in IH |- *.
  cbn in *. lia.
Qed.

Lemma read_dumps_value v rest :
  read_value (dumps_value v +:+ rest) = Some (v, rest).
Proof.
  destruct v as [s|[|x l]].
  - cbn [dumps_value]. rewrite quote_app. unfold read_value.
    cbn [skip_ws is_ws dq]. rewrite decide_True by done. by rewrite read_escape_all.
  - reflexivity.
  - cbn [dumps_value]. rewrite join_elements, !str_app_assoc.
    change ("[" +:+ ?t) with (String "[" t). rewrite quote_app.
    unfold read_value. cbn [skip_ws is_ws dq]. rewrite decide_True by done.
    rewrite read_escape_all. cbn [mbind option_bind fst snd].
    change ("]" +:+ rest) with (String "]" rest).
    rewrite read_more_elements; [done|].
    cbn [String.length]. pose proof (length_more_elements l (String "]" rest)).
    rewrite str_length_app. cbn [String.length].
    rewrite str_length_app in H |- *. lia.
Qed.

Lemma read_a_member f rest :
  read_member (member f +:+ rest) = Some (f.1, f.2, rest).
Proof.
  unfold member. rewrite !str_app_assoc, quote_app. unfold read_member.
  cbn [skip_ws is_ws dq]. rewrite decide_True by done.
  rewrite read_escape_all. cbn [mbind option_bind fst snd].
  change (":" +:+ ?t) with (String ":" t). cbn [skip_ws is_ws].
  by rewrite read_dumps_value.
Qed.

Lemma read_members_more fuel obj f rest :
  read_members (S fuel) obj ("," +:+ member f +:+ rest)
  = read_members fuel (setitem f.1 f.2 obj) rest.
Proof.
  change ("," +:+ ?t) with (String "," t).
  cbn [read_members skip_ws is_ws]. by rewrite read_a_member.
Qed.

Lemma read_more_members l obj rest fuel :
  length l < fuel →
  read_members fuel obj (more_members l +:+ String "}" rest)
  = Some (foldl (λ o f, setitem f.1 f.2 o) obj l, rest).
Proof.
  revert fuel obj. induction l as [|f l IH]; intros [|fuel] obj Hf;
    try (cbn in Hf; lia).
  - reflexivity.
  - cbn [more_members]. rewrite !str_app_assoc, read_members_more.
    rewrite IH by (cbn in Hf; lia). done.
Qed.

Lemma length_more_members l t :
  length l ≤ String.length (more_members l +:+ t).
Proof.
  induction l as [|x l IH]; [cbn; lia|].
  cbn [more_members]. rewrite !str_app_assoc.
  change ("," +:+ ?u) with (String "," u). cbn [String.length].
  rewrite !str_length_app. rewrite str_length_app in IH. cbn. lia.
Qed.

Lemma setitem_fresh k v (obj : record) :
  k ∉ obj.*1 → setitem k v obj = obj ++ [(k, v)].
Proof.
  induction obj as [|[k' v'] obj IH]; intros Hk; [done|].
  cbn in *. apply not_elem_of_cons in Hk as [Hne Hk].
  rewrite decide_False by done. by rewrite IH.
Qed.

Lemma foldl_setitem_fresh (l obj : record) :
  NoDup (obj ++ l).*1 → foldl (λ o f, setitem f.1 f.2 o) obj l = obj ++ l.
Proof.
  revert obj. induction l as [|[k v] l IH]; intros obj Hnd.
  - by rewrite app_nil_r.
  - cbn [foldl fst snd]. rewrite setitem_fresh.
    + rewrite IH; rewrite <- app_assoc; done.
    + rewrite fmap_app in Hnd. apply NoDup_app in Hnd as (_ & Hdisj & _).
      intros Hin. apply (Hdisj k Hin). left.
Qed.

Lemma read_json_members s' t :
  skip_ws s' = String dq t →
  read_json (String "{" s')
  = m ← read_member s';
    p ← read_members (S (String.length s')) [(m.1.1, m.1.2)] m.2;
    Some (JObj p.1, p.2).
Proof. intros Hs. unfold read_json. cbn [skip_ws is_ws]. by rewrite Hs. Qed.

Lemma read_dumps obj rest :
  NoDup obj.*1 → read_json (dumps obj +:+ rest) = Some (JObj obj, rest).
Proof.
  intros Hnd. destruct obj as [|f l]; [reflexivity|].
  unfold dumps. rewrite join_members, !str_app_assoc.
  change ("{" +:+ ?t) with (String "{" t).
  change ("}" +:+ rest) with (String "}" rest).
  erewrite read_json_members.
  - rewrite read_a_member. cbn [mbind option_bind fst snd].
    rewrite read_more_members.
    + cbn [mbind option_bind fst snd].
      rewrite foldl_setitem_fresh; by destruct f.
    + pose proof (length_more_members l (String "}" rest)).
      rewrite str_length_app. lia.
  - unfold member. by rewrite !str_app_assoc, quote_app.
Qed.

Lemma loads_dumps obj : NoDup obj.*1 → loads (dumps obj) = Some (JObj obj).
Proof.
  intros Hnd. unfold loads.
  rewrite <- (str_app_nil_r (dumps obj)), read_dumps by done. done.
Qed.

Lemma one_line_app s t : one_line (s +:+ t) = one_line s && one_line t.
Proof.
  induction s as [|c s IH]; [done|]. rewrite app_cons. cbn.
  by destruct (decide (c = nl)).
Qed.

Lemma one_line_escape c : one_line (escape c) = true.
Proof. destruct c as [[] [] [] [] [] [] [] []]; reflexivity. Qed.

Lemma one_line_escape_all s : one_line (escape_all s) = true.
Proof.
  induction s as [|c s IH]; [done|].
  cbn [escape_all]. by rewrite one_line_app, one_line_escape, IH.
Qed.

Lemma one_line_quote s : one_line (quote s) = true.
Proof.
  unfold quote. cbn [one_line]. rewrite decide_False by done.
  by rewrite one_line_app, one_line_escape_all.
Qed.

Lemma one_line_more_elements l : one_line (more_elements l) = true.
Proof.
  induction l as [|x l IH]; [done|].
  cbn [more_elements]. by rewrite !one_line_app, one_line_quote, IH.
Qed.

Lemma one_line_dumps_value v : one_line (dumps_value v) = true.
Proof.
  destruct v as [s|[|x l]]; [apply one_line_quote|done|].
  cbn [dumps_value]. rewrite join_elements.
  by rewrite !one_line_app, one_line_quote, one_line_more_elements.
Qed.

Lemma one_line_member f : one_line (member f) = true.
Proof.
  unfold member. by rewrite !one_line_app, one_line_quote, one_line_dumps_value.
Qed.

Lemma one_line_more_members l : one_line (more_members l) = true.
Proof.
  induction l as [|f l IH]; [done|].
  cbn [more_members]. by rewrite !one_line_app, one_line_member, IH.
Qed.

Lemma one_line_dumps obj : one_line (dumps obj) = true.
Proof.
  destruct obj as [|f l]; [done|].
  unfold dumps. rewrite join_members.
  by rewrite !one_line_app, one_line_member, one_line_more_members.
Qed.

Lemma rstrip_last s c :
  is_space c = false → rstrip (s +:+ String c "") = s +:+ String c "".
Proof.
  intros Hc. induction s as [|a s IH].
  - change ("" +:+ String c "") with (String c ""). cbn [rstrip]. by rewrite Hc.
  - rewrite app_cons. cbn [rstrip]. rewrite IH.
    by destruct s.
Qed.

(** The text of an object starts with a brace and ends with one. *)
Lemma dumps_braces obj : ∃ s, dumps obj = String "{" (s +:+ "}").
Proof. unfold dumps. eexists. reflexivity. Qed.

Lemma strip_dumps obj : strip (dumps obj) = dumps obj.
Proof.
  destruct (dumps_braces obj) as [s ->]. unfold strip.
  change (String "{" (s +:+ "}")) with (String "{" s +:+ "}").
  by rewrite rstrip_last.
Qed.

(** The codec of the examples meets [codec_ok] on every record whose field
    names are distinct, as those of a Python dict are. *)
Lemma python_json_ok obj : NoDup obj.*1 → codec_ok (H := python_json) obj.
Proof.
  intros Hnd. unfold codec_ok. cbn [json_loads json_dumps python_json].
  split; [by apply loads_dumps|]. split; [apply strip_dumps|].
  split; [|apply one_line_dumps].
  by destruct (dumps_braces obj) as [s ->].
Qed.

End JsonFacts.

(** With that codec, writing and loading is the identity on every mapping
    whose records carry their key as id and have distinct field names. *)
Lemma python_json_roundtrip (todos : dict) :
  map_Forall (λ k obj, get "id" obj = Some (VStr k) ∧ NoDup obj.*1) todos →
  load_todos (H := python_json) (Some (todos_text (H := python_json) todos))
  = Ok todos.
Proof.
  intros Hall. apply load_write.
  - intros k obj Hk. by destruct (Hall _ _ Hk).
  - intros k obj Hk. apply python_json_ok. by destruct (Hall _ _ Hk).
Qed.

(** ** The readiness query *)

Lemma all_closed_total (todos : dict) deps :
  map_Forall (λ _ obj, has_fields obj) todos →
  ∃ b, all_closed todos deps = Ok b.
Proof.
  intros Hall. induction deps as [|d deps IH]; cbn; [by eexists|].
  destruct (todos !! d) as [t|] eqn:E; [|by eexists].
  destruct (Hall _ _ E) as [[s Hs] _]. unfold getitem. rewrite Hs. cbn.
  destruct (decide (s = VStr "closed")); [done|by eexists].
Qed.

(** What [all_closed] looks at is the mapping it is given: a dependency
    counts only if it is a key of that mapping, with status "closed". *)
Lemma all_closed_true (todos : dict) deps d :
  all_closed todos deps = Ok true → d ∈ deps →
  ∃ obj, todos !! d = Some obj ∧ get "status" obj = Some (VStr "closed").
Proof.
  induction deps as [|d' deps IH]; intros Hall Hin; [by apply elem_of_nil in Hin|].
  cbn in Hall. destruct (todos !! d') as [t|] eqn:E; [|done].
  unfold getitem in Hall. destruct (get "status" t) as [s|] eqn:Hs; [|done].
  cbn in Hall. destruct (decide (s = VStr "closed")) as [->|]; [|done].
  apply elem_of_cons in Hin as [->|Hin]; [by exists t|by apply IH].
Qed.

Lemma is_ready_total (todos : dict) t :
  map_Forall (λ _ obj, has_fields obj) todos → has_fields t →
  ∃ b, is_ready todos t = Ok b.
Proof.
  intros Hall [[s Hs] [d Hd]]. unfold is_ready, getitem. rewrite Hs. cbn.
  destruct (decide (s = VStr "open")); [|by eexists].
  rewrite Hd. cbn. by apply all_closed_total.
Qed.

(** A ready record has all its dependencies among the open records. *)
Lemma is_ready_deps (todos : dict) t deps d :
  is_ready todos t = Ok true → get "deps" t = Some deps → d ∈ iter deps →
  ∃ obj, todos !! d = Some obj ∧ get "status" obj = Some (VStr "closed").
Proof.
  unfold is_ready, getitem. intros Hr Hd Hin.
  destruct (get "status" t) as [s|]; [|done]. cbn in Hr.
  destruct (decide (s = VStr "open")); [|done].
  rewrite Hd in Hr. cbn in Hr. by eapply all_closed_true.
Qed.

Lemma ready_loop_spec (todos : dict) ts :
  Forall (λ t, ∃ b, is_ready todos t = Ok b) ts →
  ∃ ready, ready_loop todos ts = Ok ready
    ∧ ∀ t, t ∈ ready ↔ t ∈ ts ∧ is_ready todos t = Ok true.
Proof.
  induction ts as [|t ts IH]; intros Hall; cbn.
  - exists []. split; [done|]. intros t. rewrite !elem_of_nil. tauto.
  - apply Forall_cons in Hall as [[b Hb] Hall].
    destruct (IH Hall) as (ready & -> & Hready). rewrite Hb. cbn.
    eexists. split; [done|]. intros t'. destruct b.
    + rewrite !elem_of_cons, Hready. split.
      * intros [->|[? ?]]; auto.
      * intros [[->|?] ?]; auto.
    + rewrite elem_of_cons, Hready. split.
      * intros [? ?]; auto.
      * intros [[->|?] ?]; [congruence|auto].
Qed.

(** Without any assumption on the records: what the loop lists passed the
    test. *)
Lemma ready_loop_inv (todos : dict) ts ready t :
  ready_loop todos ts = Ok ready → t ∈ ready →
  t ∈ ts ∧ is_ready todos t = Ok true.
Proof.
  revert ready. induction ts as [|t' ts IH]; intros ready Hl Hin; cbn in Hl.
  - injection Hl as <-. by apply elem_of_nil in Hin.
  - destruct (is_ready todos t') as [b| |] eqn:Hb; try done. cbn in Hl.
    destruct (ready_loop todos ts) as [ready'| |]; try done. cbn in Hl.
    injection Hl as <-. destruct b.
    + apply elem_of_cons in Hin as [->|Hin]; [split; [left|done]|].
      destruct (IH _ eq_refl Hin). split; [by right|done].
    + destruct (IH _ eq_refl Hin). split; [by right|done].
Qed.

Lemma with_keys_snd l kl : with_keys l = Ok kl → kl.*2 = l.
Proof.
  revert kl. induction l as [|x l IH]; intros kl Hk; cbn in Hk.
  - by injection Hk as <-.
  - destruct (id_key x) as [k| |]; try done. cbn in Hk.
    destruct (with_keys l) as [kl'| |]; try done. cbn in Hk.
    injection Hk as <-. cbn. by rewrite (IH _ eq_refl).
Qed.

Lemma sorted_by_id_Permutation l l' : sorted_by_id l = Ok l' → l' ≡ₚ l.
Proof.
  unfold sorted_by_id. destruct (with_keys l) as [kl| |] eqn:Hk; try done.
  cbn. intros [= <-]. rewrite merge_sort_Permutation. by rewrite (with_keys_snd _ _ Hk).
Qed.

Lemma with_keys_total l :
  Forall (λ x, ∃ k, get "id" x = Some (VStr k)) l →
  ∃ kl, with_keys l = Ok kl ∧ kl.*2 = l.
Proof.
  induction l as [|x l IH]; intros Hall; cbn; [by exists []|].
  apply Forall_cons in Hall as [[k Hk] Hall].
  destruct (IH Hall) as (kl & -> & Hkl). unfold id_key. rewrite Hk. cbn.
  eexists. split; [done|]. cbn. by rewrite Hkl.
Qed.

Lemma sorted_by_id_total l :
  Forall (λ x, ∃ k, get "id" x = Some (VStr k)) l →
  ∃ l', sorted_by_id l = Ok l' ∧ l' ≡ₚ l.
Proof.
  intros Hall. destruct (with_keys_total l Hall) as (kl & Hkl & <-).
  unfold sorted_by_id. rewrite Hkl. cbn. eexists. split; [done|].
  by rewrite merge_sort_Permutation.
Qed.

(** ** The commands *)

Lemma close_item_open now _id (todos closed : dict) :
  (close_item now _id todos closed).1 = delete _id todos.
Proof.
  unfold close_item. cbn. apply map_eq. intros k.
  destruct (decide (k = _id)) as [->|Hne].
  - by rewrite !lookup_delete_eq.
  - by rewrite !lookup_delete_ne, !lookup_insert_ne.
Qed.

Lemma close_item_closed now _id (todos closed : dict) :
  (close_item now _id todos closed).2
  = <[_id := setitem "updated_at" (VStr now)
               (setitem "status" (VStr "closed") (todos !!! _id))]> closed.
Proof. unfold close_item. cbn. by rewrite !lookup_total_insert_eq. Qed.

Lemma set_summary_eq now _id text (todos : dict) :
  set_summary now _id text todos
  = <[_id := setitem "updated_at" (VStr now)
       (setitem "summary" (VStr text) (todos !!! _id))]> todos.
Proof. unfold set_summary. by rewrite lookup_total_insert_eq, insert_insert_eq. Qed.

Lemma add_dep_present now child_id parent_id (todos : dict) obj l :
  todos !! child_id = Some obj → get "deps" obj = Some (VList l) →
  parent_id ∈ l →
  add_dep now child_id parent_id todos = Ok todos.
Proof.
  intros Ho Hd Hin. unfold add_dep, getitem.
  rewrite (lookup_total_correct _ _ _ Ho), Hd. cbn. by rewrite decide_True.
Qed.

Lemma add_dep_absent now child_id parent_id (todos : dict) obj l :
  todos !! child_id = Some obj → get "deps" obj = Some (VList l) →
  parent_id ∉ l →
  add_dep now child_id parent_id todos
  = Ok (<[child_id := setitem "updated_at" (VStr now)
            (setitem "deps" (VList (sorted (l ++ [parent_id]))) obj)]> todos).
Proof.
  intros Ho Hd Hin. unfold add_dep, getitem.
  rewrite (lookup_total_correct _ _ _ Ho), Hd. cbn. rewrite decide_False by done.
  by rewrite lookup_total_insert_eq, insert_insert_eq.
Qed.

Section Commands.

Context `{!Codec}.

Lemma cmd_new_ok now hex8 title st (todos : dict) :
  repo_dir st = true →
  load_todos (todos_file st) = Ok todos →
  cmd_new now hex8 title st
  = Ok (Store true
          (Some (todos_text
             (<["td-" +:+ hex8 := new_item now ("td-" +:+ hex8) title]> todos)))
          (closed_file st), "td-" +:+ hex8).
Proof.
  intros Hd Hl. unfold cmd_new, ensure_repo. rewrite Hd. bind_step. by rewrite Hl.
Qed.

Lemma cmd_close_ok now needle st todos closed _id :
  repo_dir st = true →
  load_todos (todos_file st) = Ok todos →
  load_todos (closed_file st) = Ok closed →
  resolve_id todos needle = Ok _id →
  cmd_close now needle st
  = Ok (Store true (Some (todos_text (close_item now _id todos closed).1))
                   (Some (todos_text (close_item now _id todos closed).2))).
Proof.
  intros Hd Ht Hc Hr. unfold cmd_close, ensure_repo. rewrite Hd. bind_step.
  rewrite Ht. bind_step. rewrite Hr. bind_step. by rewrite Hc.
Qed.

Lemma cmd_close_inv now needle st st' :
  cmd_close now needle st = Ok st' →
  ∃ todos closed _id,
    repo_dir st = true
    ∧ load_todos (todos_file st) = Ok todos
    ∧ load_todos (closed_file st) = Ok closed
    ∧ resolve_id todos needle = Ok _id.
Proof.
  unfold cmd_close, ensure_repo. destruct (repo_dir st); [|done]. bind_step.
  destruct (load_todos (todos_file st)) as [todos| |] eqn:Ht; try done. bind_step.
  destruct (resolve_id todos needle) as [_id| |] eqn:Hr; try done. bind_step.
  destruct (load_todos (closed_file st)) as [closed| |] eqn:Hc; try done.
  intros _. by exists todos, closed, _id.
Qed.

Lemma cmd_dep_inv now child parent st st' :
  cmd_dep now child parent st = Ok st' →
  ∃ todos child_id parent_id todos',
    load_todos (todos_file st) = Ok todos
    ∧ resolve_id todos child = Ok child_id
    ∧ resolve_id todos parent = Ok parent_id
    ∧ add_dep now child_id parent_id todos = Ok todos'
    ∧ todos_file st' = Some (todos_text todos').
Proof.
  unfold cmd_dep, ensure_repo. destruct (repo_dir st); [|done]. bind_step.
  destruct (load_todos (todos_file st)) as [todos| |] eqn:Ht; try done. bind_step.
  destruct (resolve_id todos child) as [child_id| |] eqn:Hc; try done. bind_step.
  destruct (resolve_id todos parent) as [parent_id| |] eqn:Hp; try done. bind_step.
  destruct (add_dep now child_id parent_id todos) as [todos'| |] eqn:Ha; try done.
  bind_step. intros [= <-]. by exists todos, child_id, parent_id, todos'.
Qed.

Lemma cmd_summary_inv now needle text st st' :
  cmd_summary now needle text st = Ok st' →
  ∃ todos _id,
    load_todos (todos_file st) = Ok todos
    ∧ resolve_id todos needle = Ok _id
    ∧ todos_file st' = Some (todos_text (set_summary now _id text todos)).
Proof.
  unfold cmd_summary, ensure_repo. destruct (repo_dir st); [|done]. bind_step.
  destruct (load_todos (todos_file st)) as [todos| |] eqn:Ht; try done. bind_step.
  destruct (resolve_id todos needle) as [_id| |] eqn:Hc; try done. bind_step.
  intros [= <-]. by exists todos, _id.
Qed.

(** [cmd_dep] dies before it writes when the parent matches no open item. *)
Lemma cmd_dep_unknown_parent now child parent st (todos : dict) child_id :
  repo_dir st = true →
  load_todos (todos_file st) = Ok todos →
  resolve_id todos child = Ok child_id →
  map_Forall (λ k _, startswith k parent = false) todos →
  cmd_dep now child parent st = Die "unknown id".
Proof.
  intros Hd Hl Hc Hno. unfold cmd_dep, ensure_repo. rewrite Hd. bind_step.
  rewrite Hl. bind_step. rewrite Hc. bind_step. by rewrite resolve_id_unknown.
Qed.

(** On a store whose open records have a status and deps, [cmd_ready] lists
    exactly the open records that pass its test. *)
Lemma cmd_ready_spec st (todos : dict) :
  repo_dir st = true →
  load_todos (todos_file st) = Ok todos →
  map_Forall (λ _ obj, has_fields obj) todos →
  ∃ ready, cmd_ready st = Ok ready
    ∧ ∀ t, t ∈ ready ↔ (∃ k, todos !! k = Some t) ∧ is_ready todos t = Ok true.
Proof.
  intros Hd Hl Hall. unfold cmd_ready, ensure_repo. rewrite Hd. bind_step.
  rewrite Hl. bind_step.
  destruct (ready_loop_spec todos (map_to_list todos).*2) as (ready & -> & Hready).
  { apply Forall_forall. intros t [k Hk]%elem_of_values.
    apply is_ready_total; [done|]. by eapply Hall. }
  bind_step. destruct (sorted_by_id_total ready) as (l' & -> & Hperm).
  { apply Forall_forall. intros t [[k Hk]%elem_of_values _]%Hready.
    exists k. by apply (load_todos_ids _ _ Hl). }
  eexists. split; [done|]. intros t. by rewrite Hperm, Hready, elem_of_values.
Qed.

(** X1.  Whatever [cmd_ready] lists is an open record all of whose
    dependencies are keys of the open file, with status "closed" there: the
    closed file is not looked at. *)
Lemma cmd_ready_looks_at_open_file st ready t deps d :
  cmd_ready st = Ok ready → t ∈ ready →
  get "deps" t = Some deps → d ∈ iter deps →
  ∃ todos obj,
    load_todos (todos_file st) = Ok todos
    ∧ todos !! d = Some obj
    ∧ get "status" obj = Some (VStr "closed").
Proof.
  unfold cmd_ready, ensure_repo. destruct (repo_dir st); [|done]. bind_step.
  destruct (load_todos (todos_file st)) as [todos| |]; try done. bind_step.
  destruct (ready_loop todos _) as [ready'| |] eqn:Hloop; try done. bind_step.
  intros Hs Hin Hdeps Hd. rewrite (sorted_by_id_Permutation _ _ Hs) in Hin.
  destruct (ready_loop_inv _ _ _ _ Hloop Hin) as [_ Hr].
  destruct (is_ready_deps _ _ _ _ Hr Hdeps Hd) as (obj & Ho & Hc).
  by exists todos, obj.
Qed.

(** C7.  Let the two files load to mappings with disjoint id sets, and let
    the id resolve.  Then [cmd_close] succeeds and writes two mappings: the
    item is no more in the open one, it is in the closed one with status
    "closed", the two have no id in common and together the ids they had
    before; and where the codec reads back what it prints, loading the two
    files gives these two mappings. *)
Theorem close_keeps_partitions now needle st todos closed _id :
  repo_dir st = true →
  load_todos (todos_file st) = Ok todos →
  load_todos (closed_file st) = Ok closed →
  dom todos ## dom closed →
  resolve_id todos needle = Ok _id →
  let todos' := (close_item now _id todos closed).1 in
  let closed' := (close_item now _id todos closed).2 in
  cmd_close now needle st
  = Ok (Store true (Some (todos_text todos')) (Some (todos_text closed')))
  ∧ todos' !! _id = None
  ∧ (∃ obj, closed' !! _id = Some obj ∧ get "status" obj = Some (VStr "closed"))
  ∧ dom todos' ## dom closed'
  ∧ dom todos' ∪ dom closed' = dom todos ∪ dom closed
  ∧ (map_Forall (λ _ obj, codec_ok obj) todos' →
     map_Forall (λ _ obj, codec_ok obj) closed' →
     load_todos (Some (todos_text todos')) = Ok todos'
     ∧ load_todos (Some (todos_text closed')) = Ok closed').
Proof.
  intros Hd Ht Hc Hdisj Hr todos' closed'.
  pose proof (resolve_id_in _ _ _ Hr) as [obj Hobj].
  pose proof (load_todos_ids _ _ Ht) as Hit.
  pose proof (load_todos_ids _ _ Hc) as Hic.
  assert (Hin : _id ∈ dom todos) by (apply elem_of_dom; by eexists).
  split; [by apply cmd_close_ok|].
  subst todos' closed'. rewrite close_item_open, close_item_closed.
  split; [apply lookup_delete_eq|].
  split; [eexists; split; [apply lookup_insert_eq|read_field]|].
  split; [|split].
  - rewrite dom_delete_L, dom_insert_L. apply elem_of_disjoint.
    intros k [Hk Hne]%elem_of_difference [Hk'|Hk']%elem_of_union; [done|].
    by apply (Hdisj k).
  - rewrite dom_delete_L, dom_insert_L. apply set_eq. intros k.
    rewrite !elem_of_union, elem_of_difference, elem_of_singleton.
    destruct (decide (k = _id)) as [->|]; tauto.
  - intros Ho Hcl. split; apply load_write; try done.
    + intros k o [_ Hk]%lookup_delete_Some. by apply Hit.
    + intros k o [[<- <-]|[_ Hk]]%lookup_insert_Some; [|by apply Hic].
      rewrite !get_setitem_ne by done.
      rewrite (lookup_total_correct _ _ _ Hobj). by apply Hit.
Qed.

(** C6, as the program has it.  A successful [cmd_close] writes the item
    with status "closed" and [updated_at] set to the clock; a successful
    [cmd_summary] writes it with the new summary and [updated_at] set to the
    clock.  A successful [cmd_dep] whose parent is not yet in the list of
    deps of the child writes the child with the parent added, the list
    sorted, and [updated_at] set to the clock; when the parent is already in
    the list, it writes the mapping it loaded, unchanged. *)
Theorem mutations_stamp_updated_at now st st' :
  (∀ needle, cmd_close now needle st = Ok st' →
     ∃ todos closed _id obj,
       load_todos (todos_file st) = Ok todos
       ∧ load_todos (closed_file st) = Ok closed
       ∧ resolve_id todos needle = Ok _id
       ∧ closed_file st' = Some (todos_text (close_item now _id todos closed).2)
       ∧ (close_item now _id todos closed).2 !! _id = Some obj
       ∧ get "status" obj = Some (VStr "closed")
       ∧ get "updated_at" obj = Some (VStr now))
  ∧ (∀ needle text, cmd_summary now needle text st = Ok st' →
     ∃ todos _id obj,
       load_todos (todos_file st) = Ok todos
       ∧ resolve_id todos needle = Ok _id
       ∧ todos_file st' = Some (todos_text (set_summary now _id text todos))
       ∧ set_summary now _id text todos !! _id = Some obj
       ∧ get "summary" obj = Some (VStr text)
       ∧ get "updated_at" obj = Some (VStr now))
  ∧ (∀ child parent, cmd_dep now child parent st = Ok st' →
     ∃ todos child_id parent_id old deps todos',
       load_todos (todos_file st) = Ok todos
       ∧ resolve_id todos child = Ok child_id
       ∧ resolve_id todos parent = Ok parent_id
       ∧ todos !! child_id = Some old
       ∧ get "deps" old = Some deps
       ∧ add_dep now child_id parent_id todos = Ok todos'
       ∧ todos_file st' = Some (todos_text todos')
       ∧ (∀ l, deps = VList l → parent_id ∉ l →
            ∃ obj, todos' !! child_id = Some obj
              ∧ get "deps" obj = Some (VList (sorted (l ++ [parent_id])))
              ∧ get "updated_at" obj = Some (VStr now))
       ∧ (∀ l, deps = VList l → parent_id ∈ l → todos' = todos)).
Proof.
  split; [|split].
  - intros needle Hc.
    destruct (cmd_close_inv _ _ _ _ Hc) as (todos & closed & _id & Hd & Ht & Hcl & Hr).
    pose proof (cmd_close_ok now _ _ _ _ _ Hd Ht Hcl Hr) as Hok.
    exists todos, closed, _id.
    exists (setitem "updated_at" (VStr now)
              (setitem "status" (VStr "closed") (todos !!! _id))).
    repeat (split; [done|]).
    split; [rewrite Hok in Hc; by inversion Hc|].
    split; [rewrite close_item_closed; apply lookup_insert_eq|]. split; read_field.
  - intros needle text Hs.
    destruct (cmd_summary_inv _ _ _ _ _ Hs) as (todos & _id & Ht & Hr & Hf).
    exists todos, _id.
    exists (setitem "updated_at" (VStr now)
              (setitem "summary" (VStr text) (todos !!! _id))).
    repeat (split; [done|]).
    split; [rewrite set_summary_eq; apply lookup_insert_eq|]. split; read_field.
  - intros child parent Hdep.
    destruct (cmd_dep_inv _ _ _ _ _ Hdep)
      as (todos & child_id & parent_id & todos' & Ht & Hc & Hp & Ha & Hf).
    destruct (resolve_id_in _ _ _ Hc) as [old Hold].
    assert (∃ deps, get "deps" old = Some deps) as [deps Hdeps].
    { unfold add_dep, getitem in Ha. rewrite (lookup_total_correct _ _ _ Hold) in Ha.
      destruct (get "deps" old); [by eexists|done]. }
    exists todos, child_id, parent_id, old, deps, todos'.
    repeat (split; [done|]). split.
    + intros l -> Hnotin. rewrite (add_dep_absent _ _ _ _ _ _ Hold Hdeps Hnotin) in Ha.
      injection Ha as <-. eexists. split; [apply lookup_insert_eq|]. split; read_field.
    + intros l -> Hin. rewrite (add_dep_present _ _ _ _ _ _ Hold Hdeps Hin) in Ha.
      by injection Ha as <-.
Qed.

(** C3, as the program has it.  On a store whose open file loads and whose
    records have a status and deps, [cmd_new] creates an item with id I; a
    [cmd_dep] with child I and a parent that no open id starts with then
    dies with "unknown id" and writes nothing, so the item keeps its empty
    deps; and [cmd_ready] on that store lists the item. *)
Theorem dangling_parent_is_rejected now now' hex8 title parent st (todos : dict) :
  repo_dir st = true →
  load_todos (todos_file st) = Ok todos →
  map_Forall (λ _ obj, has_fields obj) todos →
  map_Forall (λ k _, startswith k parent = false)
    (<["td-" +:+ hex8 := new_item now ("td-" +:+ hex8) title]> todos) →
  map_Forall (λ _ obj, codec_ok obj)
    (<["td-" +:+ hex8 := new_item now ("td-" +:+ hex8) title]> todos) →
  ∃ st1 ready,
    cmd_new now hex8 title st = Ok (st1, "td-" +:+ hex8)
    ∧ cmd_dep now' ("td-" +:+ hex8) parent st1 = Die "unknown id"
    ∧ cmd_ready st1 = Ok ready
    ∧ new_item now ("td-" +:+ hex8) title ∈ ready.
Proof.
  intros Hd Hl Hfields Hno Hcodec.
  rewrite (cmd_new_ok _ _ _ _ todos) by done.
  remember ("td-" +:+ hex8) as _id eqn:E. clear E.
  remember (new_item now _id title) as item eqn:E.
  assert (Hload : load_todos (Some (todos_text (<[_id := item]> todos)))
                  = Ok (<[_id := item]> todos)).
  { apply load_write; [|done].
    intros k obj [[<- <-]|[_ Hk]]%lookup_insert_Some; [by subst item|].
    by apply (load_todos_ids _ _ Hl). }
  destruct (cmd_ready_spec
    (Store true (Some (todos_text (<[_id := item]> todos))) (closed_file st))
    (<[_id := item]> todos)) as (ready & Hready & Hin); [done|done| |].
  { apply map_Forall_insert_2; [|done]. subst item. split; by eexists. }
  eexists _, ready. split; [done|]. split; [|split; [done|]].
  - eapply cmd_dep_unknown_parent; [done|apply Hload| |done].
    apply resolve_id_exact. rewrite lookup_insert_eq. by eexists.
  - apply Hin. split; [exists _id; apply lookup_insert_eq|by subst item].
Qed.

End Commands.

(** ** The merge driver *)

Lemma merge_step_choice ours theirs _id merged :
  merge_step ours theirs _id merged
  = c ← merge_choice ours theirs _id; Ok (keep _id c merged).
Proof.
  unfold merge_step, merge_choice.
  destruct (truthy (ours !! _id)) as [a|], (truthy (theirs !! _id)) as [b|]; try done.
  destruct (getitem "updated_at" a) as [ta| |]; try done. bind_step.
  destruct (getitem "updated_at" b) as [tb| |]; try done. bind_step.
  by destruct (py_ge ta tb) as [[]| |].
Qed.

(** The loop of [cmd_merge] has no call of [die]. *)
Lemma merge_choice_no_die ours theirs _id msg :
  merge_choice ours theirs _id ≠ Die msg.
Proof.
  unfold merge_choice.
  destruct (truthy (ours !! _id)) as [a|], (truthy (theirs !! _id)) as [b|]; try done.
  unfold getitem.
  destruct (get "updated_at" a) as [ta|]; try done. bind_step.
  destruct (get "updated_at" b) as [tb|]; try done. bind_step.
  by destruct ta, tb.
Qed.

Lemma keep_comm i j ci cj (merged : dict) :
  i ≠ j → keep i ci (keep j cj merged) = keep j cj (keep i ci merged).
Proof.
  intros Hne. destruct ci, cj; cbn; try done. by apply insert_insert_ne.
Qed.

(** The order in which the loop meets the ids does not show in its result. *)
Lemma merge_loop_Permutation ours theirs ids1 ids2 merged :
  ids1 ≡ₚ ids2 →
  merge_loop ours theirs ids1 merged = merge_loop ours theirs ids2 merged.
Proof.
  intros Hp. revert merged.
  induction Hp as [|i ids1 ids2 _ IH|i j ids|ids1 ids2 ids3 _ IH1 _ IH2];
    intros merged.
  - done.
  - cbn. rewrite merge_step_choice.
    destruct (merge_choice ours theirs i); cbn; auto.
  - cbn. rewrite !merge_step_choice.
    destruct (merge_choice ours theirs i) as [ci| |] eqn:Ei,
             (merge_choice ours theirs j) as [cj| |] eqn:Ej;
      cbn; rewrite ?merge_step_choice, ?Ei, ?Ej; cbn; try done;
      try (by apply merge_choice_no_die in Ei);
      try (by apply merge_choice_no_die in Ej).
    destruct (decide (i = j)) as [->|Hne].
    + by assert (ci = cj) as -> by congruence.
    + by rewrite keep_comm.
  - by rewrite IH1.
Qed.

Lemma merge_loop_lookup ours theirs ids merged merged' k :
  merge_loop ours theirs ids merged = Ok merged' →
  (k ∈ ids → ∃ c, merge_choice ours theirs k = Ok c
                  ∧ merged' !! k = from_option Some (merged !! k) c)
  ∧ (k ∉ ids → merged' !! k = merged !! k).
Proof.
  revert merged. induction ids as [|i ids IH]; intros merged Hl.
  - injection Hl as <-. split; [by intros ?%elem_of_nil|done].
  - cbn in Hl. rewrite merge_step_choice in Hl.
    destruct (merge_choice ours theirs i) as [ci| |] eqn:Ei; try done.
    cbn in Hl. destruct (IH _ Hl) as [Hin Hout].
    assert (Hk : i ≠ k → keep i ci merged !! k = merged !! k).
    { intros Hne. destruct ci; cbn; [by apply lookup_insert_ne|done]. }
    split.
    + intros Hk'. destruct (decide (k ∈ ids)) as [Hkin|Hkout].
      * destruct (Hin Hkin) as (c & Hc & Hm). exists c. split; [done|].
        rewrite Hm. destruct c as [obj|]; [done|]. cbn.
        destruct (decide (i = k)) as [->|Hne]; [|by apply Hk].
        by assert (ci = None) as -> by congruence.
      * apply elem_of_cons in Hk' as [->|?]; [|done].
        exists ci. split; [done|]. rewrite (Hout Hkout).
        destruct ci as [obj|]; cbn; [apply lookup_insert_eq|done].
    + intros Hnot. apply not_elem_of_cons in Hnot as [Hne Hnot].
      rewrite (Hout Hnot). by apply Hk.
Qed.

Lemma merge_loop_total ours theirs ids merged :
  Forall (λ k, ∃ c, merge_choice ours theirs k = Ok c) ids →
  ∃ merged', merge_loop ours theirs ids merged = Ok merged'.
Proof.
  revert merged. induction ids as [|i ids IH]; intros merged Hall; [by eexists|].
  apply Forall_cons in Hall as [[c Hc] Hall]. cbn.
  rewrite merge_step_choice, Hc. cbn. by apply IH.
Qed.

(** A record of a loaded mapping is not the empty dict. *)
Lemma truthy_loaded (todos : dict) k :
  map_Forall (λ k obj, get "id" obj = Some (VStr k)) todos →
  truthy (todos !! k) = todos !! k.
Proof.
  intros Hall. destruct (todos !! k) as [[|f obj]|] eqn:E; try done.
  by apply Hall in E.
Qed.

Lemma merge_choice_loaded (ours theirs : dict) _id :
  map_Forall (λ k obj, get "id" obj = Some (VStr k)) ours →
  map_Forall (λ k obj, get "id" obj = Some (VStr k)) theirs →
  map_Forall (λ _ obj, has_time obj) ours →
  map_Forall (λ _ obj, has_time obj) theirs →
  merge_choice ours theirs _id
  = Ok match ours !! _id, theirs !! _id with
       | None, None => None
       | Some a, None => Some a
       | None, Some b => Some b
       | Some a, Some b =>
           match get "updated_at" a, get "updated_at" b with
           | Some (VStr ta), Some (VStr tb) =>
               Some (if bool_decide (String.le tb ta) then a else b)
           | _, _ => None
           end
       end.
Proof.
  intros Hio Hit Hto Htt. unfold merge_choice.
  rewrite !truthy_loaded by done.
  destruct (ours !! _id) as [a|] eqn:Ea, (theirs !! _id) as [b|] eqn:Eb; try done.
  destruct (has_time_get _ (Hto _ _ Ea)) as [ta Hta].
  destruct (has_time_get _ (Htt _ _ Eb)) as [tb Htb].
  unfold getitem. rewrite Hta, Htb. cbn. unfold str_ge, String.le.
  by destruct (String.leb tb ta).
Qed.

Section Merge.

Context `{!Codec}.

Lemma cmd_merge_eq visit base ours theirs fs (b o t : dict) :
  load_todos (fs !! base) = Ok b →
  load_todos (fs !! ours) = Ok o →
  load_todos (fs !! theirs) = Ok t →
  cmd_merge visit base ours theirs fs
  = merged ← merge_loop o t (visit (dom b ∪ dom o ∪ dom t)) ∅;
    write_todos merged ours fs.
Proof. intros Hb Ho Ht. unfold cmd_merge. by rewrite Hb, Ho, Ht. Qed.

(** C2.  Let the three files load, with a string for [updated_at] in every
    record of ours and theirs, and let the path of ours have a directory
    name.  Then [cmd_merge] writes a mapping that, for
    every id: has nothing when the id is in neither ours nor theirs; has the
    record of ours when the id is in ours only; has the record of theirs when
    the id is in theirs only; and when it is in both, has the record of ours
    if the [updated_at] of theirs is less than or equal to that of ours in
    the order of strings, and the record of theirs otherwise. *)
Theorem merge_outcome visit base ours theirs fs (b o t : dict) :
  (∀ X, visit X ≡ₚ elements X) →
  load_todos (fs !! base) = Ok b →
  load_todos (fs !! ours) = Ok o →
  load_todos (fs !! theirs) = Ok t →
  map_Forall (λ _ obj, has_time obj) o →
  map_Forall (λ _ obj, has_time obj) t →
  has_dirname ours = true →
  ∃ merged,
    merge_loop o t (visit (dom b ∪ dom o ∪ dom t)) ∅ = Ok merged
    ∧ cmd_merge visit base ours theirs fs = Ok (<[ours := todos_text merged]> fs)
    ∧ ∀ _id,
        (o !! _id = None → t !! _id = None → merged !! _id = None)
        ∧ (∀ a, o !! _id = Some a → t !! _id = None → merged !! _id = Some a)
        ∧ (∀ a' tb,
             t !! _id = Some a' → get "updated_at" a' = Some (VStr tb) →
             (o !! _id = None → merged !! _id = Some a')
             ∧ (∀ a ta, o !! _id = Some a → get "updated_at" a = Some (VStr ta) →
                  (String.le tb ta → merged !! _id = Some a)
                  ∧ (¬ String.le tb ta → merged !! _id = Some a'))).
Proof.
  intros Hv Hb Ho Ht Hto Htt Hdir.
  pose proof (load_todos_ids _ _ Ho) as Hio.
  pose proof (load_todos_ids _ _ Ht) as Hit.
  rewrite (cmd_merge_eq _ _ _ _ _ b o t) by done.
  destruct (merge_loop_total o t (visit (dom b ∪ dom o ∪ dom t)) ∅)
    as [merged Hm].
  { apply Forall_forall. intros k _. eexists. by apply merge_choice_loaded. }
  exists merged. rewrite Hm. split; [done|].
  split; [bind_step; unfold write_todos; by rewrite Hdir|]. intros _id.
  assert (Hlook : Ok (merged !! _id) = merge_choice o t _id).
  { destruct (merge_loop_lookup _ _ _ _ _ _id Hm) as [Hin Hout].
    destruct (decide (_id ∈ visit (dom b ∪ dom o ∪ dom t))) as [Hi|Hi].
    - destruct (Hin Hi) as (c & -> & ->). rewrite lookup_empty. by destruct c.
    - rewrite (Hout Hi), lookup_empty, merge_choice_loaded by done.
      rewrite Hv, elem_of_elements, !elem_of_union, !elem_of_dom in Hi.
      destruct (o !! _id) as [a|]; [destruct Hi; left; right; by eexists|].
      destruct (t !! _id) as [b'|]; [destruct Hi; right; by eexists|]. done. }
  rewrite merge_choice_loaded in Hlook by done. injection Hlook as ->.
  split; [|split].
  - by intros -> ->.
  - by intros a -> ->.
  - intros a' tb -> Htb. split; [by intros ->|].
    intros a ta -> Hta. rewrite Hta, Htb. split; intros Hle.
    + by rewrite bool_decide_eq_true_2.
    + by rewrite bool_decide_eq_false_2.
Qed.

(** C9.  Two runs of [cmd_merge] on the same files end alike, whatever the
    order in which each meets the ids of the set.  When a run succeeds, the
    text it leaves in the file of ours is a line for each id of the merged
    mapping and no other, the ids in ascending order, each once; and where
    the codec prints the records on one line each, these are the lines of
    the file. *)
Theorem merge_deterministic visit1 visit2 base ours theirs fs :
  (∀ X, visit1 X ≡ₚ elements X) →
  (∀ X, visit2 X ≡ₚ elements X) →
  cmd_merge visit1 base ours theirs fs = cmd_merge visit2 base ours theirs fs
  ∧ ∀ fs', cmd_merge visit1 base ours theirs fs = Ok fs' →
      ∃ merged ids,
        fs' = <[ours := write_lines merged ids]> fs
        ∧ Sorted String.le ids ∧ NoDup ids
        ∧ (∀ k, k ∈ ids ↔ is_Some (merged !! k))
        ∧ (map_Forall (λ _ obj, codec_ok obj) merged →
           readlines (write_lines merged ids)
           = (λ k, json_dumps (merged !!! k) +:+ newline) <$> ids).
Proof.
  intros H1 H2. split.
  - unfold cmd_merge.
    destruct (load_todos (fs !! base)) as [b| |]; try done. bind_step.
    destruct (load_todos (fs !! ours)) as [o| |]; try done. bind_step.
    destruct (load_todos (fs !! theirs)) as [t| |]; try done. bind_step.
    rewrite (merge_loop_Permutation o t (visit1 _) (visit2 (dom b ∪ dom o ∪ dom t)));
      [done|]. by rewrite H1, H2.
  - intros fs'. unfold cmd_merge.
    destruct (load_todos (fs !! base)) as [b| |]; try done. bind_step.
    destruct (load_todos (fs !! ours)) as [o| |]; try done. bind_step.
    destruct (load_todos (fs !! theirs)) as [t| |]; try done. bind_step.
    destruct (merge_loop o t _ ∅) as [merged| |]; try done. bind_step.
    unfold write_todos. destruct (has_dirname ours); [|done].
    intros [= <-]. exists merged, (sorted (keys merged)).
    split; [done|]. split; [apply sorted_Sorted|]. split; [|split].
    + rewrite sorted_Permutation. apply NoDup_keys.
    + intros k. rewrite sorted_Permutation. apply elem_of_keys.
    + intros Hc. apply readlines_write_lines, Forall_forall. intros k Hk.
      rewrite sorted_Permutation in Hk. apply elem_of_keys in Hk as [obj Hobj].
      rewrite (lookup_total_correct _ _ _ Hobj).
      by destruct (Hc _ _ Hobj) as (_ & _ & _ & ?).
Qed.

End Merge.

(** * Further properties of the program *)

(** ** Substrings and paths *)

Lemma prefix_nil t : String.prefix "" t = true.
Proof. by destruct t. Qed.

Lemma prefix_app s t : String.prefix s (s +:+ t) = true.
Proof.
  induction s as [|c s IH]; [apply prefix_nil|]. rewrite app_cons. cbn.
  by destruct (ascii_dec c c).
Qed.

Lemma prefix_app_r e s t :
  String.prefix e s = true → String.prefix e (s +:+ t) = true.
Proof.
  revert s. induction e as [|c e IH]; intros s Hp; [apply prefix_nil|].
  destruct s as [|d s]; [done|].
  rewrite app_cons. cbn in *. destruct (ascii_dec c d); [by apply IH|done].
Qed.

Lemma contains_index s e : contains s e = true ↔ is_Some (String.index 0 e s).
Proof. unfold contains. apply bool_decide_eq_true. Qed.

Lemma contains_refl e : contains e e = true.
Proof.
  apply contains_index. destruct e as [|c e]; [by eexists|].
  cbn [String.index].
  assert (String.prefix (String c e) (String c e) = true) as ->; [|by eexists].
  pose proof (prefix_app (String c e) "") as Hp.
  by rewrite str_app_nil_r in Hp.
Qed.

Lemma contains_app_l s t e : contains s e = true → contains (s +:+ t) e = true.
Proof.
  rewrite !contains_index. revert t. induction s as [|c s IH]; intros t Hin.
  - destruct e as [|d e]; [|by destruct Hin]. destruct t; by eexists.
  - rewrite app_cons. cbn [String.index] in *.
    destruct (String.prefix e (String c s)) eqn:Hp.
    + rewrite <- app_cons, (prefix_app_r _ _ _ Hp). by eexists.
    + destruct (String.prefix e (String c (s +:+ t))); [by eexists|].
      destruct (String.index 0 e s) as [m|] eqn:Hs; [|by destruct Hin].
      destruct (IH t) as [m' ->]; by eexists.
Qed.

Lemma contains_app_r s t e : contains t e = true → contains (s +:+ t) e = true.
Proof.
  rewrite !contains_index. intros Hin. induction s as [|c s IH]; [done|].
  rewrite app_cons. cbn [String.index].
  destruct (String.prefix e (String c (s +:+ t))); [by eexists|].
  destruct IH as [m ->]. by eexists.
Qed.

Lemma has_dirname_app s t : has_dirname (s +:+ t) = has_dirname s || has_dirname t.
Proof.
  induction s as [|c s IH]; [done|]. rewrite app_cons. cbn.
  by destruct (decide (c = "/"%char)).
Qed.

Lemma ends_with_slash_app s c t :
  ends_with_slash (s +:+ String c t) = ends_with_slash (String c t).
Proof.
  induction s as [|d s IH]; [done|]. rewrite app_cons.
  change (ends_with_slash (String d (s +:+ String c t)))
    with (match s +:+ String c t with
          | "" => bool_decide (d = "/"%char)
          | _ => ends_with_slash (s +:+ String c t)
          end).
  rewrite IH. by destruct s.
Qed.

Lemma str_app_inv_head s t u : s +:+ t = s +:+ u → t = u.
Proof. induction s as [|c s IH]; [done|]. rewrite !app_cons. intros [= ?]. auto. Qed.

(** The directory of the store is never empty and never ends with a "/". *)
Lemma todos_paths_base toplevel :
  ∃ s, (todos_paths toplevel).1.1 = s +:+ TODOS_DIRNAME.
Proof.
  unfold todos_paths. cbn [fst].
  destruct (repo_root toplevel) as [[|c root]|]; try by exists "".
  unfold path_join. cbn [startswith TODOS_DIRNAME String.prefix].
  destruct (bool_decide (String c root = "") || ends_with_slash (String c root)).
  - by eexists.
  - exists (String c root +:+ "/"). by rewrite str_app_assoc.
Qed.

Lemma path_join_base s name :
  startswith name "/" = false →
  path_join (s +:+ TODOS_DIRNAME) name = (s +:+ TODOS_DIRNAME) +:+ "/" +:+ name.
Proof.
  intros Hn. unfold path_join. rewrite Hn.
  unfold TODOS_DIRNAME. rewrite (ends_with_slash_app s "." "todos").
  rewrite bool_decide_eq_false_2; [done|]. by destruct s.
Qed.

(** X20.  Whatever [git] reports as the top of the checkout, the two files
    of the store are two different files in the directory of the store, and
    [write_todos] succeeds on each: the directory name it creates first is
    not empty. *)
Theorem todos_paths_writable `{!Codec} toplevel (todos : dict) fs :
  let paths := todos_paths toplevel in
  paths.1.2 = paths.1.1 +:+ "/todos.jsonl"
  ∧ paths.2 = paths.1.1 +:+ "/closed.jsonl"
  ∧ paths.1.2 ≠ paths.2
  ∧ write_todos todos paths.1.2 fs = Ok (<[paths.1.2 := todos_text todos]> fs)
  ∧ write_todos todos paths.2 fs = Ok (<[paths.2 := todos_text todos]> fs).
Proof.
  intros paths. destruct (todos_paths_base toplevel) as [s Hs].
  assert (H1 : paths.1.2 = paths.1.1 +:+ "/todos.jsonl").
  { subst paths. unfold todos_paths in *. cbn [fst snd] in *.
    rewrite Hs. by apply path_join_base. }
  assert (H2 : paths.2 = paths.1.1 +:+ "/closed.jsonl").
  { subst paths. unfold todos_paths in *. cbn [fst snd] in *.
    rewrite Hs. by apply path_join_base. }
  split; [done|]. split; [done|]. split.
  - rewrite H1, H2. by intros ?%str_app_inv_head.
  - unfold write_todos. rewrite H1, H2, !has_dirname_app.
    change (has_dirname "/todos.jsonl") with true.
    change (has_dirname "/closed.jsonl") with true.
    by rewrite !orb_true_r.
Qed.

(** ** The attributes file *)

Lemma init_gitattributes_some existing :
  ∃ added,
    init_gitattributes (Some existing) = existing +:+ added
    ∧ Forall (λ e, contains (existing +:+ added) e = true) entries.
Proof.
  unfold init_gitattributes, entries. rewrite !filter_cons, filter_nil.
  destruct (contains existing (".todos/todos.jsonl merge=todo" +:+ newline)) eqn:H1,
           (contains existing (".todos/closed.jsonl merge=todo" +:+ newline)) eqn:H2;
    rewrite ?(decide_True (P := true = false)), ?(decide_False (P := true = false)),
            ?(decide_True (P := false = false)) by done.
  - rewrite decide_True by done. exists "". rewrite str_app_nil_r.
    split; [done|]. by repeat constructor.
  - rewrite decide_False by done. eexists. split; [done|].
    repeat constructor.
    + by apply contains_app_l.
    + apply contains_app_r, contains_refl.
  - rewrite decide_False by done. eexists. split; [done|].
    repeat constructor.
    + apply contains_app_r, contains_refl.
    + by apply contains_app_l.
  - rewrite decide_False by done. eexists. split; [done|].
    repeat constructor.
    + apply contains_app_r, contains_app_l, contains_refl.
    + apply contains_app_r, contains_app_r, contains_refl.
Qed.

Lemma init_gitattributes_settled text :
  Forall (λ e, contains text e = true) entries →
  init_gitattributes (Some text) = text.
Proof.
  unfold init_gitattributes, entries. intros Hall.
  apply Forall_cons in Hall as [H1 Hall]. apply Forall_cons in Hall as [H2 _].
  rewrite !filter_cons, filter_nil.
  rewrite H1, H2, !(decide_False (P := true = false)) by done.
  by rewrite decide_True.
Qed.

(** X19.  After [cmd_init] in a git checkout the attributes file holds the
    two lines that route the files of the store to the merge driver; a
    second [cmd_init] leaves it as the first left it; and a text that was
    there before is still there, at the start.  Where [git] reports no
    checkout, [cmd_init] leaves the attributes file alone. *)
Theorem init_gitattributes_idempotent ga :
  let text := init_gitattributes ga in
  Forall (λ e, contains text e = true) entries
  ∧ init_gitattributes (Some text) = text
  ∧ (∀ existing, ga = Some existing → ∃ added, text = existing +:+ added)
  ∧ cmd_init_gitattributes None ga = ga
  ∧ ∀ toplevel root, repo_root toplevel = Some root →
      cmd_init_gitattributes toplevel ga = Some text
      ∧ cmd_init_gitattributes toplevel (Some text) = Some text.
Proof.
  intros text.
  assert (Hall : Forall (λ e, contains text e = true) entries).
  { subst text. destruct ga as [existing|].
    - destruct (init_gitattributes_some existing) as (added & -> & Hall). done.
    - repeat constructor. }
  split; [done|]. split; [by apply init_gitattributes_settled|].
  split; [|split; [done|]].
  - intros existing ->. subst text.
    destruct (init_gitattributes_some existing) as (added & -> & _). by eexists.
  - intros toplevel root Hroot. unfold cmd_init_gitattributes. rewrite Hroot.
    destruct root as [|c root].
    + unfold repo_root in Hroot. destruct toplevel as [out|]; [|done].
      by destruct (decide (strip out = "")); [|injection Hroot].
    + by rewrite init_gitattributes_settled.
Qed.

(** ** More on the identifier resolver *)

Lemma startswith_nil k : startswith k "" = true.
Proof. apply prefix_nil. Qed.

(** What [resolve_id] does when it is not given a stored id, by the list of
    the stored ids that start with the needle. *)
Lemma resolve_id_partial todos needle :
  todos !! needle = None →
  resolve_id todos needle
  = match matches todos needle with
    | [] => Die "unknown id"
    | [t_id] => Ok t_id
    | ms => Die ("ambiguous id: " +:+ join ", " (sorted ms))
    end.
Proof.
  intros Hnone. unfold resolve_id. rewrite decide_False; [done|].
  rewrite Hnone. by intros [? ?].
Qed.

Lemma resolve_id_no_raise todos needle : resolve_id todos needle ≠ Raise.
Proof.
  unfold resolve_id. destruct (decide (is_Some (todos !! needle))); [done|].
  by destruct (matches todos needle) as [|t [|t' ms]].
Qed.

Lemma resolve_id_only todos needle k :
  todos !! needle = None →
  is_Some (todos !! k) → startswith k needle →
  (∀ k', is_Some (todos !! k') → startswith k' needle → k' = k) →
  resolve_id todos needle = Ok k.
Proof.
  intros Hnone Hk Hp Huniq. rewrite resolve_id_partial by done.
  pose proof (NoDup_matches todos needle) as Hnd.
  pose proof (elem_of_matches todos needle) as Hel.
  destruct (matches todos needle) as [|t [|t' ms]].
  - assert (Hin : k ∈ @nil string) by (by apply Hel). by apply elem_of_nil in Hin.
  - f_equal. apply Huniq; apply Hel; left.
  - apply NoDup_cons in Hnd as [Hnotin _]. destruct Hnotin.
    assert (t = k) as -> by (apply Huniq; apply Hel; left).
    assert (t' = k) as -> by (apply Huniq; apply Hel; right; left).
    left.
Qed.

(** X6.  What [resolve_id] returns is a stored id that starts with the
    needle, and resolves to itself; and unless the needle is itself a stored
    id, it is the only stored id that starts with the needle. *)
Theorem resolve_id_sound todos needle k :
  resolve_id todos needle = Ok k →
  is_Some (todos !! k)
  ∧ startswith k needle
  ∧ resolve_id todos k = Ok k
  ∧ (todos !! needle = None →
     ∀ k', is_Some (todos !! k') → startswith k' needle → k' = k).
Proof.
  intros Hr. pose proof (resolve_id_in _ _ _ Hr) as Hin.
  split; [done|]. split; [|split; [by apply resolve_id_exact|]].
  - unfold resolve_id in Hr.
    destruct (decide (is_Some (todos !! needle))).
    + injection Hr as <-. apply startswith_refl.
    + pose proof (elem_of_matches todos needle) as Hel.
      destruct (matches todos needle) as [|t [|t' ms]]; try done.
      injection Hr as <-. apply Hel. left.
  - intros Hnone k' Hk' Hp. rewrite resolve_id_partial in Hr by done.
    pose proof (elem_of_matches todos needle) as Hel.
    destruct (matches todos needle) as [|t [|t' ms]]; try done.
    injection Hr as <-.
    assert (k' ∈ [t]) as ->%list_elem_of_singleton by (by apply Hel). done.
Qed.

(** X7.  [resolve_id] never raises.  It dies with "unknown id" exactly when
    no stored id starts with the needle; and when it dies with another
    message, the needle is not a stored id and two different stored ids
    start with it. *)
Theorem resolve_id_failures todos needle :
  resolve_id todos needle ≠ Raise
  ∧ (resolve_id todos needle = Die "unknown id"
     ↔ map_Forall (λ k _, startswith k needle = false) todos)
  ∧ ∀ msg, resolve_id todos needle = Die msg → msg ≠ "unknown id" →
      todos !! needle = None
      ∧ ∃ k1 k2, k1 ≠ k2
          ∧ is_Some (todos !! k1) ∧ startswith k1 needle
          ∧ is_Some (todos !! k2) ∧ startswith k2 needle.
Proof.
  split; [apply resolve_id_no_raise|].
  pose proof (NoDup_matches todos needle) as Hnd.
  pose proof (elem_of_matches todos needle) as Hel.
  split; [split; [|apply resolve_id_unknown]|].
  - unfold resolve_id. destruct (decide (is_Some (todos !! needle))); [done|].
    destruct (matches todos needle) as [|t [|t' ms]]; try done.
    intros _ k obj Hk. destruct (startswith k needle) eqn:Hp; [|done].
    assert (Hin : k ∈ @nil string) by (apply Hel; split; [by eexists|by rewrite Hp]).
    by apply elem_of_nil in Hin.
  - intros msg. unfold resolve_id.
    destruct (decide (is_Some (todos !! needle))) as [|Hout]; [done|].
    destruct (matches todos needle) as [|t [|t' ms]]; try done.
    + by intros [= <-].
    + intros _ _. split.
      * destruct (todos !! needle); [|done]. destruct Hout. by eexists.
      * exists t, t'. apply NoDup_cons in Hnd as [Hnotin _].
        split; [intros ->; apply Hnotin; left|].
        destruct (proj1 (Hel t)) as [? ?]; [left|].
        destruct (proj1 (Hel t')) as [? ?]; [right; left|]. done.
Qed.

(** X8.  With the empty string for needle, when it is not itself a stored
    id: [resolve_id] dies with "unknown id" exactly on the empty mapping, and
    it returns an id exactly when that id is the only one stored. *)
Theorem resolve_id_empty_needle (todos : dict) :
  todos !! "" = None →
  (resolve_id todos "" = Die "unknown id" ↔ todos = ∅)
  ∧ ∀ k, resolve_id todos "" = Ok k ↔ dom todos = {[ k ]}.
Proof.
  intros Hnone. pose proof (elem_of_matches todos "") as Hel.
  assert (Hin : ∀ k, k ∈ matches todos "" ↔ k ∈ dom todos).
  { intros k. rewrite Hel, elem_of_dom, startswith_nil. intuition. }
  split.
  - rewrite resolve_id_partial by done. split.
    + destruct (matches todos "") as [|t [|t' ms]] eqn:E; try done.
      intros _. apply dom_empty_iff_L. apply set_eq. intros k.
      by rewrite <- Hin, elem_of_nil, elem_of_empty.
    + intros ->. unfold matches, keys. by rewrite map_to_list_empty.
  - intros k. split.
    + rewrite resolve_id_partial by done.
      destruct (matches todos "") as [|t [|t' ms]] eqn:E; try done.
      intros [= <-]. apply set_eq. intros k.
      by rewrite <- Hin, list_elem_of_singleton, elem_of_singleton.
    + intros Hdom. apply resolve_id_only; [done| |by rewrite startswith_nil|].
      * apply elem_of_dom. rewrite Hdom. by apply elem_of_singleton.
      * intros k' Hk' _. apply elem_of_dom in Hk'. rewrite Hdom in Hk'.
        by apply elem_of_singleton in Hk'.
Qed.

(** ** More on loading *)

Section Loader.

Context `{!Codec}.

(** What holds of the record of every line that carries one holds of every
    record of the loaded mapping. *)
Lemma load_lines_Forall (P : string → record → Prop) lines todos todos' :
  (∀ line obj k, line ∈ lines → json_loads (strip line) = Some (JObj obj) →
     get "id" obj = Some (VStr k) → P k obj) →
  map_Forall P todos →
  load_lines lines todos = Ok todos' →
  map_Forall P todos'.
Proof.
  revert todos. induction lines as [|line lines IH]; intros todos HP Hall Hload.
  - by injection Hload as <-.
  - cbn [load_lines] in Hload.
    assert (HP' : ∀ line obj k, line ∈ lines →
              json_loads (strip line) = Some (JObj obj) →
              get "id" obj = Some (VStr k) → P k obj).
    { intros l obj k Hin. apply HP. by right. }
    destruct (decide (strip line = "")) as [|Hne]; [by eapply IH|].
    destruct (json_loads (strip line)) as [[obj|]|] eqn:Hl; try done.
    destruct (get "id" obj) as [[_id|]|] eqn:G; try done.
    eapply IH; [done| |done]. apply map_Forall_insert_2; [|done].
    apply (HP line); [left|done..].
Qed.

(** X4.  [load_todos] never dies; and every record of a mapping it
    returns is the object of a line of the file, bound to the id it
    carries. *)
Theorem loaded_records_come_from_lines text :
  (∀ msg, load_todos (Some text) ≠ Die msg)
  ∧ ∀ todos, load_todos (Some text) = Ok todos →
      map_Forall (λ k obj,
        get "id" obj = Some (VStr k)
        ∧ ∃ line, line ∈ readlines text
                  ∧ json_loads (strip line) = Some (JObj obj))
        todos.
Proof.
  split; [intros msg; apply load_lines_no_die|].
  intros todos Hload.
  eapply load_lines_Forall; [|apply map_Forall_empty|exact Hload].
  intros line obj k Hin Hl Hid. split; [done|]. by exists line.
Qed.

Lemma readlines_newline_ne s : readlines (s +:+ newline) ≠ [].
Proof.
  destruct s as [|c s]; [done|]. rewrite app_cons. cbn [readlines].
  destruct (decide (c = nl)); [done|]. by destruct (readlines (s +:+ newline)).
Qed.

(** The lines of a text that ends with a line end, followed by more text. *)
Lemma readlines_app s rest :
  readlines ((s +:+ newline) +:+ rest)
  = readlines (s +:+ newline) ++ readlines rest.
Proof.
  induction s as [|c s IH]; [done|]. rewrite !app_cons. cbn [readlines].
  destruct (decide (c = nl)); [by rewrite IH|]. rewrite IH.
  pose proof (readlines_newline_ne s) as Hne.
  by destruct (readlines (s +:+ newline)).
Qed.

Lemma load_lines_blank l1 blank l2 todos :
  strip blank = "" →
  load_lines (l1 ++ blank :: l2) todos = load_lines (l1 ++ l2) todos.
Proof.
  intros Hb. rewrite !load_lines_app.
  destruct (load_lines l1 todos) as [m| |]; try done. bind_step.
  cbn [load_lines]. by rewrite decide_True.
Qed.

(** X5.  A line of blanks between two lines of a file, or before the first,
    does not show in what [load_todos] returns or in how it fails. *)
Theorem load_todos_skips_blank_lines head blank tail :
  head = "" ∨ (∃ s, head = s +:+ newline) →
  strip blank = "" → one_line blank = true →
  load_todos (Some (head +:+ (blank +:+ newline) +:+ tail))
  = load_todos (Some (head +:+ tail)).
Proof.
  intros Hhead Hb H1. unfold load_todos.
  assert (Hblank : readlines ((blank +:+ newline) +:+ tail)
                   = (blank +:+ newline) :: readlines tail)
    by (by apply readlines_line).
  destruct Hhead as [->|[s ->]].
  - change ("" +:+ (blank +:+ newline) +:+ tail) with ((blank +:+ newline) +:+ tail).
    change ("" +:+ tail) with tail. rewrite Hblank.
    apply (load_lines_blank []). by rewrite strip_newline.
  - rewrite !(readlines_app s), Hblank. apply load_lines_blank.
    by rewrite strip_newline.
Qed.

End Loader.

(** ** Sorting records by id *)

Lemma with_keys_pairs (l : list (string * record)) :
  Forall (λ p, get "id" p.2 = Some (VStr p.1)) l → with_keys l.*2 = Ok l.
Proof.
  induction l as [|[k x] l IH]; intros Hall; [done|].
  apply Forall_cons in Hall as [Hk Hall]. cbn in *.
  unfold id_key. rewrite Hk, (IH Hall). done.
Qed.

Lemma sorted_pairs_fst (l : list (string * record)) :
  Sorted String.le (merge_sort key_le l).*1.
Proof.
  apply (Sorted_fmap _ key_le); [done|]. apply (Sorted_merge_sort key_le).
Qed.

Lemma pairs_lookup (todos : dict) (l : list (string * record)) :
  Forall (λ p, todos !! p.1 = Some p.2) l → l.*2 = (todos !!!.) <$> l.*1.
Proof.
  induction l as [|[k x] l IH]; intros Hall; [done|].
  apply Forall_cons in Hall as [Hk Hall]. cbn in *.
  by rewrite (lookup_total_correct _ _ _ Hk), (IH Hall).
Qed.

(** Sorting pairs whose ids are those of a mapping, each with its record,
    gives the records in the order of their ids. *)
Lemma sorted_by_id_pairs (todos : dict) (l : list (string * record)) :
  Forall (λ p, todos !! p.1 = Some p.2) l →
  map_Forall (λ k obj, get "id" obj = Some (VStr k)) todos →
  sorted_by_id l.*2 = Ok ((todos !!!.) <$> (merge_sort key_le l).*1).
Proof.
  intros Hall Hid. unfold sorted_by_id. rewrite with_keys_pairs.
  - bind_step. f_equal. apply pairs_lookup.
    apply Forall_forall. intros p Hp.
    rewrite merge_sort_Permutation in Hp. by apply (proj1 (Forall_forall _ _) Hall).
  - apply Forall_forall. intros p Hp.
    apply (Hid p.1 p.2), (proj1 (Forall_forall _ _) Hall p Hp).
Qed.

Lemma sorted_keys (todos : dict) :
  (merge_sort key_le (map_to_list todos)).*1 = sorted (keys todos).
Proof.
  apply (Sorted_unique String.le).
  - apply sorted_pairs_fst.
  - apply sorted_Sorted.
  - unfold keys. by rewrite sorted_Permutation, merge_sort_Permutation.
Qed.

(** The values of a loaded mapping, sorted by id. *)
Lemma sorted_by_id_values (todos : dict) :
  map_Forall (λ k obj, get "id" obj = Some (VStr k)) todos →
  sorted_by_id (map_to_list todos).*2 = Ok ((todos !!!.) <$> sorted (keys todos)).
Proof.
  intros Hid. rewrite (sorted_by_id_pairs todos), sorted_keys; [done| |done].
  apply Forall_forall. intros [k x] Hp. by apply elem_of_map_to_list in Hp.
Qed.

Lemma sublist_fst {A B} (l1 l2 : list (A * B)) :
  l1 `sublist_of` l2 → l1.*1 `sublist_of` l2.*1.
Proof. induction 1; cbn; by constructor. Qed.

(** The loop of [cmd_ready] keeps some of the records, in their order. *)
Lemma ready_loop_pairs (todos : dict) (l : list (string * record)) ready :
  ready_loop todos l.*2 = Ok ready →
  ∃ l', l' `sublist_of` l ∧ ready = l'.*2.
Proof.
  revert ready. induction l as [|p l IH]; intros ready Hl; cbn in Hl.
  - injection Hl as <-. by exists [].
  - destruct (is_ready todos p.2) as [b| |]; try done. cbn in Hl.
    destruct (ready_loop todos l.*2) as [ready'| |]; try done. cbn in Hl.
    injection Hl as <-. destruct (IH _ eq_refl) as (l' & Hsub & ->).
    destruct b.
    + exists (p :: l'). split; [by constructor|done].
    + exists l'. split; [by constructor|done].
Qed.

Lemma is_ready_open (todos : dict) t :
  is_ready todos t = Ok true → get "status" t = Some (VStr "open").
Proof.
  unfold is_ready, getitem. destruct (get "status" t) as [s|]; [|done]. cbn.
  by destruct (decide (s = VStr "open")) as [->|].
Qed.

(** ** Printing *)

Lemma print_each_lines (line : record → result string) items :
  Forall2 (λ t s, line t = Ok s)
    (take (length (print_each line items).1) items) (print_each line items).1
  ∧ ((print_each line items).2 = Ok ()
     ↔ length (print_each line items).1 = length items).
Proof.
  induction items as [|t items [IH1 IH2]]; [by split|].
  cbn [print_each]. destruct (line t) as [s| |] eqn:Hs; cbn.
  - split; [by constructor|]. rewrite IH2. split; [by intros ->|by intros [= ->]].
  - split; [constructor|]. split; done.
  - split; [constructor|]. split; done.
Qed.

Lemma print_each_total (f : record → string) items :
  print_each (λ t, Ok (f t)) items = (f <$> items, Ok ()).
Proof. induction items as [|t items IH]; [done|]. cbn. by rewrite IH. Qed.

Section ListingFacts.

Context `{!Codec}.
Variable str_list : list string → string.

Lemma printed_write_lines (todos : dict) ids :
  printed ((λ k, json_dumps (todos !!! k)) <$> ids) = write_lines todos ids.
Proof. induction ids as [|k ids IH]; [done|]. cbn. by rewrite IH. Qed.

(** [cmd_list] on a store whose file loads: one [print] for each record, by
    ascending id. *)
Lemma cmd_list_eq (closed json : bool) st (todos : dict) :
  repo_dir st = true →
  load_todos (if closed then closed_file st else todos_file st) = Ok todos →
  cmd_list str_list closed json st
  = print_each (item_line str_list json) ((todos !!!.) <$> sorted (keys todos)).
Proof.
  intros Hd Hl. unfold cmd_list, ensure_repo. rewrite Hd. bind_step.
  rewrite Hl. bind_step. rewrite sorted_by_id_values; [done|].
  by apply (load_todos_ids _ _ Hl).
Qed.


(** X22.  With [--json], [cmd_list] on a store whose selected file loads
    ends well, and what it prints is the text [write_todos] writes for the
    mapping that was loaded. *)
Theorem cmd_list_json_is_file_text (closed : bool) st (todos : dict) :
  repo_dir st = true →
  load_todos (if closed then closed_file st else todos_file st) = Ok todos →
  (cmd_list str_list closed true st).2 = Ok ()
  ∧ printed (cmd_list str_list closed true st).1 = todos_text todos.
Proof.
  intros Hd Hl. rewrite (cmd_list_eq _ _ _ todos) by done.
  unfold item_line. rewrite print_each_total. split; [done|]. cbn [fst].
  rewrite <- list_fmap_compose. apply printed_write_lines.
Qed.

Lemma text_line_new_item now _id title :
  text_line str_list (new_item now _id title)
  = Ok (_id +:+ " [open] " +:+ title).
Proof.
  unfold text_line, getitem.
  change (get "deps" (new_item now _id title)) with (Some (VList [])).
  change (get "summary" (new_item now _id title)) with (Some (VStr "")).
  change (get "id" (new_item now _id title)) with (Some (VStr _id)).
  change (get "status" (new_item now _id title)) with (Some (VStr "open")).
  change (get "title" (new_item now _id title)) with (Some (VStr title)).
  bind_step. cbn [value_truthy iter format]. bind_step.
  rewrite decide_True by done. by rewrite !str_app_nil_r.
Qed.

(** X23.  After [cmd_new] on a store whose open file loads, where the codec
    reads back what it prints: a [cmd_list] that ends well has printed the
    line of the new item, which is its id, its status "open" in brackets and
    its title, and nothing more; and with [--json] the listing has the
    object of the new item. *)
Theorem new_item_is_listed now hex8 title st (todos : dict) :
  repo_dir st = true →
  load_todos (todos_file st) = Ok todos →
  map_Forall (λ _ obj, codec_ok obj)
    (<["td-" +:+ hex8 := new_item now ("td-" +:+ hex8) title]> todos) →
  ∃ st',
    cmd_new now hex8 title st = Ok (st', "td-" +:+ hex8)
    ∧ ((cmd_list str_list false false st').2 = Ok () →
       ("td-" +:+ hex8) +:+ " [open] " +:+ title
       ∈ (cmd_list str_list false false st').1)
    ∧ json_dumps (new_item now ("td-" +:+ hex8) title)
      ∈ (cmd_list str_list false true st').1.
Proof.
  intros Hd Hl Hcodec. rewrite (cmd_new_ok _ _ _ _ todos) by done.
  remember ("td-" +:+ hex8) as _id eqn:E. clear E.
  remember (new_item now _id title) as item eqn:E.
  assert (Hload : load_todos (Some (todos_text (<[_id := item]> todos)))
                  = Ok (<[_id := item]> todos)).
  { apply load_write; [|done].
    intros k obj [[<- <-]|[_ Hk]]%lookup_insert_Some; [by subst item|].
    by apply (load_todos_ids _ _ Hl). }
  assert (Hin : item ∈ (((<[_id := item]> todos) !!!.)
                         <$> sorted (keys (<[_id := item]> todos)))).
  { apply list_elem_of_fmap. exists _id. split.
    - by rewrite lookup_total_insert_eq.
    - rewrite sorted_Permutation. apply elem_of_keys.
      rewrite lookup_insert_eq. by eexists. }
  eexists. split; [done|]. rewrite !(cmd_list_eq _ _ _ (<[_id := item]> todos)) by done.
  split.
  - intros Hok.
    destruct (print_each_lines (item_line str_list false)
                (((<[_id := item]> todos) !!!.)
                   <$> sorted (keys (<[_id := item]> todos)))) as [H1 H2].
    rewrite take_ge in H1 by (rewrite (proj1 H2 Hok); lia).
    destruct (proj1 (list_elem_of_lookup _ _) Hin) as [i Hi].
    destruct (Forall2_lookup_l _ _ _ _ _ H1 Hi) as (s & Hs & Hline).
    unfold item_line in Hline. subst item.
    rewrite text_line_new_item in Hline. injection Hline as <-.
    by eapply list_elem_of_lookup_2.
  - unfold item_line. rewrite print_each_total. cbn [fst].
    apply list_elem_of_fmap. by exists item.
Qed.

(** X24.  With [--json], every line [cmd_ready] prints is a line
    [cmd_list] prints for the open file. *)
Theorem ready_lines_are_listed st line :
  line ∈ (print_ready str_list true st).1 →
  line ∈ (cmd_list str_list false true st).1.
Proof.
  unfold print_ready, cmd_ready, ensure_repo.
  destruct (repo_dir st) eqn:Hd; [|by intros ?%elem_of_nil]. bind_step.
  destruct (load_todos (todos_file st)) as [todos| |] eqn:Hl;
    try by intros ?%elem_of_nil.
  bind_step.
  destruct (ready_loop todos _) as [ready| |] eqn:Hloop;
    try by intros ?%elem_of_nil.
  bind_step.
  destruct (sorted_by_id ready) as [l| |] eqn:Hs; try by intros ?%elem_of_nil.
  unfold ready_line. rewrite print_each_total. cbn [fst].
  intros (t & -> & Ht)%list_elem_of_fmap.
  rewrite (sorted_by_id_Permutation _ _ Hs) in Ht.
  destruct (ready_loop_inv _ _ _ _ Hloop Ht) as [[k Hk]%elem_of_values _].
  rewrite (cmd_list_eq _ _ _ todos) by done.
  unfold item_line. rewrite print_each_total. cbn [fst].
  apply list_elem_of_fmap. exists t. split; [done|].
  apply list_elem_of_fmap. exists k. split.
  - by rewrite (lookup_total_correct _ _ _ Hk).
  - rewrite sorted_Permutation. apply elem_of_keys. by eexists.
Qed.

(** X2.  What [cmd_ready] lists are records of the open file with status
    "open", each once, in ascending order of their ids. *)
Theorem cmd_ready_sorted_open st ready :
  cmd_ready st = Ok ready →
  ∃ (todos : dict) ids,
    load_todos (todos_file st) = Ok todos
    ∧ ready = (todos !!!.) <$> ids
    ∧ Sorted String.le ids ∧ NoDup ids
    ∧ ∀ k, k ∈ ids →
        ∃ t, todos !! k = Some t ∧ get "status" t = Some (VStr "open").
Proof.
  unfold cmd_ready, ensure_repo. destruct (repo_dir st); [|done]. bind_step.
  destruct (load_todos (todos_file st)) as [todos| |] eqn:Hl; try done. bind_step.
  destruct (ready_loop todos _) as [ready'| |] eqn:Hloop; try done. bind_step.
  intros Hs. destruct (ready_loop_pairs _ _ _ Hloop) as (l' & Hsub & ->).
  assert (Hall : Forall (λ p, todos !! p.1 = Some p.2) l').
  { apply Forall_forall. intros [k x] Hp.
    by apply elem_of_map_to_list, (elem_of_sublist l'). }
  rewrite (sorted_by_id_pairs todos) in Hs;
    [|done|by apply (load_todos_ids _ _ Hl)].
  injection Hs as <-. exists todos, (merge_sort key_le l').*1.
  split; [done|]. split; [done|]. split; [apply sorted_pairs_fst|].
  split.
  - rewrite merge_sort_Permutation.
    apply (sublist_NoDup _ (map_to_list todos).*1);
      [apply NoDup_fst_map_to_list|by apply sublist_fst].
  - intros k Hk. rewrite merge_sort_Permutation in Hk.
    apply list_elem_of_fmap in Hk as ([k' t] & -> & Hp). exists t.
    split; [apply (proj1 (Forall_forall _ _) Hall _ Hp)|].
    apply (is_ready_open todos).
    refine (proj2 (ready_loop_inv _ _ _ _ Hloop _)).
    apply list_elem_of_fmap. by exists (k', t).
Qed.

End ListingFacts.

(** ** More on the commands *)

Lemma get_setitem_other f k v obj :
  f ≠ k → get f (setitem k v obj) = get f obj.
Proof. apply get_setitem_ne. Qed.

Lemma sorted_snoc_elem_of l x d : d ∈ sorted (l ++ [x]) ↔ d ∈ l ∨ d = x.
Proof.
  rewrite sorted_Permutation, elem_of_app, list_elem_of_singleton. tauto.
Qed.

Lemma sorted_snoc_NoDup l x : NoDup l → x ∉ l → NoDup (sorted (l ++ [x])).
Proof.
  intros Hnd Hx. rewrite sorted_Permutation. apply NoDup_app.
  split; [done|]. split; [|apply NoDup_singleton].
  intros d Hd ->%list_elem_of_singleton. done.
Qed.



Section MoreCommands.

Context `{!Codec}.


(** X9.  On a store whose open file loads, where the codec reads back what
    it prints, [cmd_new] leaves the closed file alone and writes an open
    file that loads again: it binds the id that was printed to the new
    item, that id resolves to itself, and every other id is bound as it was
    before. *)
Theorem cmd_new_adds_item now hex8 title st (todos : dict) :
  repo_dir st = true →
  load_todos (todos_file st) = Ok todos →
  map_Forall (λ _ obj, codec_ok obj)
    (<["td-" +:+ hex8 := new_item now ("td-" +:+ hex8) title]> todos) →
  ∃ st' todos',
    cmd_new now hex8 title st = Ok (st', "td-" +:+ hex8)
    ∧ closed_file st' = closed_file st
    ∧ load_todos (todos_file st') = Ok todos'
    ∧ todos' !! ("td-" +:+ hex8) = Some (new_item now ("td-" +:+ hex8) title)
    ∧ resolve_id todos' ("td-" +:+ hex8) = Ok ("td-" +:+ hex8)
    ∧ ∀ k, k ≠ "td-" +:+ hex8 → todos' !! k = todos !! k.
Proof.
  intros Hd Hl Hcodec. rewrite (cmd_new_ok _ _ _ _ todos) by done.
  remember ("td-" +:+ hex8) as _id eqn:E. clear E.
  remember (new_item now _id title) as item eqn:E.
  exists (Store true (Some (todos_text (<[_id := item]> todos))) (closed_file st)).
  exists (<[_id := item]> todos).
  split; [done|]. split; [done|]. split; [|split; [|split]].
  - apply load_write; [|done].
    intros k obj [[<- <-]|[_ Hk]]%lookup_insert_Some; [by subst item|].
    by apply (load_todos_ids _ _ Hl).
  - apply lookup_insert_eq.
  - apply resolve_id_exact. rewrite lookup_insert_eq. by eexists.
  - intros k Hne. by apply lookup_insert_ne.
Qed.

(** X10.  A successful [cmd_summary] leaves the closed file alone and
    rewrites the open file from the mapping it loaded with one record
    replaced: that of the item, in which every field other than the summary
    and [updated_at] is as it was. *)
Theorem cmd_summary_changes_one_item now needle text st st' :
  cmd_summary now needle text st = Ok st' →
  ∃ (todos : dict) _id old new,
    load_todos (todos_file st) = Ok todos
    ∧ resolve_id todos needle = Ok _id
    ∧ todos !! _id = Some old
    ∧ todos_file st' = Some (todos_text (<[_id := new]> todos))
    ∧ closed_file st' = closed_file st
    ∧ ∀ f, f ≠ "summary" → f ≠ "updated_at" → get f new = get f old.
Proof.
  unfold cmd_summary, ensure_repo. destruct (repo_dir st); [|done]. bind_step.
  destruct (load_todos (todos_file st)) as [todos| |] eqn:Ht; try done. bind_step.
  destruct (resolve_id todos needle) as [_id| |] eqn:Hr; try done. bind_step.
  intros [= <-]. destruct (resolve_id_in _ _ _ Hr) as [old Hold].
  exists todos, _id, old. eexists. rewrite set_summary_eq.
  rewrite (lookup_total_correct _ _ _ Hold).
  repeat (split; [done|]). intros f H1 H2. by rewrite !get_setitem_other.
Qed.

(** X11.  A successful [cmd_close] rewrites the open file from the mapping
    it loaded without the item, and the closed file from the mapping it
    loaded with one record bound to the id of the item, whatever was bound
    to it there: the record of the item, in which every field other than
    the status and [updated_at] is as it was. *)
Theorem cmd_close_moves_record now needle st st' :
  cmd_close now needle st = Ok st' →
  ∃ (todos closed : dict) _id old new,
    load_todos (todos_file st) = Ok todos
    ∧ load_todos (closed_file st) = Ok closed
    ∧ resolve_id todos needle = Ok _id
    ∧ todos !! _id = Some old
    ∧ todos_file st' = Some (todos_text (delete _id todos))
    ∧ closed_file st' = Some (todos_text (<[_id := new]> closed))
    ∧ ∀ f, f ≠ "status" → f ≠ "updated_at" → get f new = get f old.
Proof.
  intros Hc.
  destruct (cmd_close_inv _ _ _ _ Hc) as (todos & closed & _id & Hd & Ht & Hcl & Hr).
  destruct (resolve_id_in _ _ _ Hr) as [old Hold].
  pose proof (cmd_close_ok now _ _ _ _ _ Hd Ht Hcl Hr) as Hok.
  rewrite close_item_open, close_item_closed in Hok.
  rewrite (lookup_total_correct _ _ _ Hold), Hc in Hok.
  exists todos, closed, _id, old. eexists.
  repeat (split; [done|]).
  split; [by inversion Hok|]. split; [by inversion Hok|].
  intros f H1 H2. by rewrite !get_setitem_other.
Qed.

(** X12.  A successful [cmd_dep] leaves the closed file alone and rewrites
    the open file from the mapping it loaded with one record replaced: that
    of the child, in which every field other than the deps and [updated_at]
    is as it was.  When the deps were a list, they are one again: it holds
    what the list held and the id of the parent, it has no duplicate if the
    list had none, and it is sorted if the list was. *)
Theorem cmd_dep_keeps_deps_sorted now child parent st st' :
  cmd_dep now child parent st = Ok st' →
  ∃ (todos : dict) child_id parent_id old new,
    load_todos (todos_file st) = Ok todos
    ∧ resolve_id todos child = Ok child_id
    ∧ resolve_id todos parent = Ok parent_id
    ∧ todos !! child_id = Some old
    ∧ todos_file st' = Some (todos_text (<[child_id := new]> todos))
    ∧ closed_file st' = closed_file st
    ∧ (∀ f, f ≠ "deps" → f ≠ "updated_at" → get f new = get f old)
    ∧ ∀ l, get "deps" old = Some (VList l) →
        ∃ l', get "deps" new = Some (VList l')
          ∧ (∀ d, d ∈ l' ↔ d ∈ l ∨ d = parent_id)
          ∧ (NoDup l → NoDup l')
          ∧ (Sorted String.le l → Sorted String.le l').
Proof.
  unfold cmd_dep, ensure_repo. destruct (repo_dir st); [|done]. bind_step.
  destruct (load_todos (todos_file st)) as [todos| |] eqn:Ht; try done. bind_step.
  destruct (resolve_id todos child) as [child_id| |] eqn:Hc; try done. bind_step.
  destruct (resolve_id todos parent) as [parent_id| |] eqn:Hp; try done. bind_step.
  destruct (add_dep now child_id parent_id todos) as [todos'| |] eqn:Ha; try done.
  bind_step. intros [= <-]. destruct (resolve_id_in _ _ _ Hc) as [old Hold].
  exists todos, child_id, parent_id, old.
  unfold add_dep, getitem in Ha. rewrite (lookup_total_correct _ _ _ Hold) in Ha.
  destruct (get "deps" old) as [[s|l]|] eqn:Hdeps; try done;
    cbn [mbind result_mbind result_bind] in Ha.
  - exists old. destruct (contains s parent_id); [|done]. injection Ha as <-.
    rewrite (insert_id _ _ _ Hold). by repeat (split; [done|]).
  - destruct (decide (parent_id ∈ l)) as [Hin|Hout].
    + exists old. injection Ha as <-. rewrite (insert_id _ _ _ Hold).
      repeat (split; [done|]). intros l' [= <-]. exists l.
      split; [done|]. split; [|done]. intros d. split; [tauto|].
      by intros [?| ->].
    + rewrite lookup_total_insert_eq, insert_insert_eq in Ha. injection Ha as <-.
      eexists. repeat (split; [done|]).
      split; [intros f H1 H2; by rewrite !get_setitem_other|].
      intros l' [= <-]. eexists. split; [read_field|].
      split; [apply sorted_snoc_elem_of|].
      split; [intros Hnd; by apply sorted_snoc_NoDup|].
      intros _. apply sorted_Sorted.
Qed.

(** X13.  Once [cmd_close] has closed an item whose id no other open id
    starts with, that id is out of reach of the commands that resolve it
    among the open items: closing it again, giving it a summary or a
    dependency die with "unknown id", and making another item depend on it
    dies as well. *)
Theorem closed_item_out_of_reach now now' needle text child st
    (todos closed : dict) _id :
  repo_dir st = true →
  load_todos (todos_file st) = Ok todos →
  load_todos (closed_file st) = Ok closed →
  resolve_id todos needle = Ok _id →
  map_Forall (λ k _, k = _id ∨ startswith k _id = false) todos →
  map_Forall (λ _ obj, codec_ok obj) (delete _id todos) →
  ∃ st',
    cmd_close now needle st = Ok st'
    ∧ cmd_close now' _id st' = Die "unknown id"
    ∧ cmd_summary now' _id text st' = Die "unknown id"
    ∧ cmd_dep now' _id child st' = Die "unknown id"
    ∧ ∃ msg, cmd_dep now' child _id st' = Die msg.
Proof.
  intros Hd Ht Hcl Hr Halone Hcodec.
  rewrite (cmd_close_ok now _ _ _ _ _ Hd Ht Hcl Hr), close_item_open.
  eexists. split; [done|].
  assert (Hload : load_todos (Some (todos_text (delete _id todos)))
                  = Ok (delete _id todos)).
  { apply load_write; [|done]. intros k obj [_ Hk]%lookup_delete_Some.
    by apply (load_todos_ids _ _ Ht). }
  assert (Hgone : resolve_id (delete _id todos) _id = Die "unknown id").
  { apply resolve_id_unknown. intros k obj [Hne Hk]%lookup_delete_Some.
    by destruct (Halone _ _ Hk). }
  unfold cmd_close, cmd_summary, cmd_dep, ensure_repo.
  cbn [repo_dir todos_file]. bind_step. rewrite Hload. bind_step. rewrite Hgone.
  repeat (split; [done|]).
  destruct (resolve_id (delete _id todos) child) as [child_id|msg|] eqn:Hc.
  - by exists "unknown id".
  - by exists msg.
  - by apply resolve_id_no_raise in Hc.
Qed.

(** X14.  [cmd_dep] accepts an item as its own parent.  Where the codec
    reads back what it prints, the item then has its own id among its
    deps, and no [cmd_ready] lists it. *)
Theorem self_dependency_blocks_ready now needle st (todos : dict) _id old l :
  repo_dir st = true →
  load_todos (todos_file st) = Ok todos →
  resolve_id todos needle = Ok _id →
  todos !! _id = Some old →
  get "deps" old = Some (VList l) →
  _id ∉ l →
  map_Forall (λ _ obj, codec_ok obj)
    (<[_id := setitem "updated_at" (VStr now)
                (setitem "deps" (VList (sorted (l ++ [_id]))) old)]> todos) →
  ∃ st' todos',
    cmd_dep now needle needle st = Ok st'
    ∧ load_todos (todos_file st') = Ok todos'
    ∧ (∃ new l', todos' !! _id = Some new
         ∧ get "deps" new = Some (VList l') ∧ _id ∈ l')
    ∧ ∀ ready t, cmd_ready st' = Ok ready → t ∈ ready →
        get "id" t ≠ Some (VStr _id).
Proof.
  intros Hd Ht Hr Hold Hdeps Hout Hcodec.
  remember (setitem "updated_at" (VStr now)
              (setitem "deps" (VList (sorted (l ++ [_id]))) old)) as new eqn:E.
  pose proof (load_todos_ids _ _ Ht) as Hid.
  assert (Hload : load_todos (Some (todos_text (<[_id := new]> todos)))
                  = Ok (<[_id := new]> todos)).
  { apply load_write; [|done].
    intros k obj [[<- <-]|[_ Hk]]%lookup_insert_Some; [|by apply Hid].
    subst new. rewrite !get_setitem_other by done. by apply Hid. }
  exists (Store true (Some (todos_text (<[_id := new]> todos))) (closed_file st)).
  exists (<[_id := new]> todos).
  assert (Hnew : get "deps" new = Some (VList (sorted (l ++ [_id])))).
  { subst new. read_field. }
  split; [|split; [done|split]].
  - unfold cmd_dep, ensure_repo. rewrite Hd. bind_step. rewrite Ht. bind_step.
    rewrite Hr. bind_step.
    rewrite (add_dep_absent _ _ _ _ _ _ Hold Hdeps Hout). bind_step.
    by subst new.
  - exists new. eexists. split; [apply lookup_insert_eq|]. split; [done|].
    apply sorted_snoc_elem_of. by right.
  - intros ready t. unfold cmd_ready, ensure_repo. cbn [repo_dir todos_file].
    bind_step. rewrite Hload. bind_step.
    destruct (ready_loop _ _) as [ready'| |] eqn:Hloop; try done. bind_step.
    intros Hs Hin Hself. rewrite (sorted_by_id_Permutation _ _ Hs) in Hin.
    destruct (ready_loop_inv _ _ _ _ Hloop Hin) as [[k Hk]%elem_of_values Hready].
    assert (k = _id) as ->.
    { apply lookup_insert_Some in Hk as [[<- <-]|[_ Hk]]; [done|].
      apply Hid in Hk. congruence. }
    rewrite lookup_insert_eq in Hk. injection Hk as <-.
    destruct (is_ready_deps _ _ _ _id Hready Hnew) as (obj & Hobj & Hclosed).
    { apply sorted_snoc_elem_of. by right. }
    rewrite lookup_insert_eq in Hobj. injection Hobj as <-.
    pose proof (is_ready_open _ _ Hready) as Hopen. congruence.
Qed.

End MoreCommands.

(** ** More on the merge driver *)

Lemma merge_loop_no_die ours theirs ids merged msg :
  merge_loop ours theirs ids merged ≠ Die msg.
Proof.
  revert merged. induction ids as [|i ids IH]; intros merged; [done|].
  cbn. rewrite merge_step_choice.
  destruct (merge_choice ours theirs i) as [c| |] eqn:E; cbn; [apply IH| |done].
  by apply merge_choice_no_die in E.
Qed.

(** An id that is in neither mapping passes through the loop unnoticed. *)
Lemma merge_loop_filter (ours theirs : dict) ids merged :
  merge_loop ours theirs ids merged
  = merge_loop ours theirs (filter (λ k, k ∈ dom ours ∪ dom theirs) ids) merged.
Proof.
  revert merged. induction ids as [|i ids IH]; intros merged; [done|].
  rewrite filter_cons. destruct (decide (i ∈ dom ours ∪ dom theirs)) as [Hin|Hout].
  - cbn. destruct (merge_step ours theirs i merged); cbn; auto.
  - apply not_elem_of_union in Hout as [Ho Ht].
    apply not_elem_of_dom in Ho, Ht. cbn. unfold merge_step.
    rewrite Ho, Ht. cbn. apply IH.
Qed.

Lemma merge_loop_base visit (b b' ours theirs : dict) merged :
  (∀ X : gset string, visit X ≡ₚ elements X) →
  merge_loop ours theirs (visit (dom b ∪ dom ours ∪ dom theirs)) merged
  = merge_loop ours theirs (visit (dom b' ∪ dom ours ∪ dom theirs)) merged.
Proof.
  intros Hv.
  assert (Hany : ∀ b0 : dict,
    filter (λ k, k ∈ dom ours ∪ dom theirs) (visit (dom b0 ∪ dom ours ∪ dom theirs))
    ≡ₚ elements (dom ours ∪ dom theirs)).
  { intros b0. apply NoDup_Permutation.
    - apply NoDup_filter. rewrite Hv. apply NoDup_elements.
    - apply NoDup_elements.
    - intros k. rewrite list_elem_of_filter, Hv, !elem_of_elements, !elem_of_union.
      tauto. }
  rewrite (merge_loop_filter _ _ (visit (dom b ∪ _ ∪ _))).
  rewrite (merge_loop_filter _ _ (visit (dom b' ∪ _ ∪ _))).
  apply merge_loop_Permutation. by rewrite !Hany.
Qed.

(** The mapping the loop builds from the empty one, by what it keeps for
    each id. *)
Lemma merge_loop_by_choice (ours theirs : dict) ids
    (c : string → option record) (merged : dict) :
  (∀ k, merge_choice ours theirs k = Ok (c k)) →
  (∀ k, merged !! k = if decide (k ∈ ids) then c k else None) →
  merge_loop ours theirs ids ∅ = Ok merged.
Proof.
  intros Hc Hm.
  destruct (merge_loop_total ours theirs ids ∅) as [merged' Hl].
  { apply Forall_forall. intros k _. by eexists. }
  rewrite Hl. f_equal. apply map_eq. intros k. rewrite Hm.
  destruct (merge_loop_lookup _ _ _ _ _ k Hl) as [Hin Hout].
  destruct (decide (k ∈ ids)) as [Hk|Hk].
  - destruct (Hin Hk) as (c' & Hc' & ->). rewrite Hc in Hc'. injection Hc' as <-.
    rewrite lookup_empty. by destruct (c k).
  - by rewrite (Hout Hk), lookup_empty.
Qed.

Lemma merge_loop_swap (ours theirs : dict) ids merged :
  (∀ k, merge_choice ours theirs k = merge_choice theirs ours k) →
  merge_loop ours theirs ids merged = merge_loop theirs ours ids merged.
Proof.
  intros Hsym. revert merged. induction ids as [|i ids IH]; intros merged; [done|].
  cbn. rewrite !merge_step_choice, Hsym.
  destruct (merge_choice theirs ours i); cbn; auto.
Qed.

Section MoreMerge.

Context `{!Codec}.

Lemma load_todos_no_die file msg : load_todos file ≠ Die msg.
Proof. destruct file; [apply load_lines_no_die|done]. Qed.

(** X17.  [cmd_merge] never dies; and when the path of ours has no
    directory part, as a bare file name has none, it raises whatever the
    three files hold, and writes nothing. *)
Theorem merge_needs_directory visit base ours theirs fs :
  (∀ msg, cmd_merge visit base ours theirs fs ≠ Die msg)
  ∧ (has_dirname ours = false → cmd_merge visit base ours theirs fs = Raise).
Proof.
  unfold cmd_merge.
  destruct (load_todos (fs !! base)) as [b| |] eqn:Hb;
    [|by apply load_todos_no_die in Hb|done]. bind_step.
  destruct (load_todos (fs !! ours)) as [o| |] eqn:Ho;
    [|by apply load_todos_no_die in Ho|done]. bind_step.
  destruct (load_todos (fs !! theirs)) as [t| |] eqn:Ht;
    [|by apply load_todos_no_die in Ht|done]. bind_step.
  destruct (merge_loop o t _ ∅) as [merged| |] eqn:Hm;
    [|by apply merge_loop_no_die in Hm|done]. bind_step.
  unfold write_todos. split; [by destruct (has_dirname ours)|by intros ->].
Qed.

(** X15.  The file of the common ancestor has no say in a merge: with
    another text in its place, as long as that text loads, [cmd_merge] ends
    as it did and writes the same text to the file of ours. *)
Theorem merge_ignores_base visit base ours theirs fs text (b b' : dict) :
  (∀ X, visit X ≡ₚ elements X) →
  base ≠ ours → base ≠ theirs →
  load_todos (fs !! base) = Ok b →
  load_todos (Some text) = Ok b' →
  cmd_merge visit base ours theirs (<[base := text]> fs)
  = cmd_merge visit base ours theirs fs ≫= (λ out, Ok (<[base := text]> out)).
Proof.
  intros Hv Ho Ht Hb Hb'. unfold cmd_merge.
  rewrite lookup_insert_eq, !lookup_insert_ne, Hb, Hb' by done. bind_step.
  destruct (load_todos (fs !! ours)) as [o| |]; try done. bind_step.
  destruct (load_todos (fs !! theirs)) as [t| |]; try done. bind_step.
  rewrite (merge_loop_base visit b' b) by done.
  destruct (merge_loop o t _ ∅) as [merged| |]; try done. bind_step.
  unfold write_todos. destruct (has_dirname ours); [|done]. bind_step.
  by rewrite insert_insert_ne.
Qed.

(** X16.  When the file of theirs does not exist, [cmd_merge] writes to
    the file of ours the mapping it loaded from it; when the file of ours
    does not exist, it writes to it the mapping it loaded from the file of
    theirs. *)
Theorem merge_with_missing_side visit base ours theirs fs (b m : dict) :
  (∀ X, visit X ≡ₚ elements X) →
  load_todos (fs !! base) = Ok b →
  (fs !! theirs = None → load_todos (fs !! ours) = Ok m →
     cmd_merge visit base ours theirs fs = write_todos m ours fs)
  ∧ (fs !! ours = None → load_todos (fs !! theirs) = Ok m →
     cmd_merge visit base ours theirs fs = write_todos m ours fs).
Proof.
  intros Hv Hb.
  assert (Hin : ∀ (o t : dict) k, is_Some (o !! k) ∨ is_Some (t !! k) →
            k ∈ visit (dom b ∪ dom o ∪ dom t)).
  { intros o t k Hk. rewrite Hv, elem_of_elements, !elem_of_union, !elem_of_dom.
    tauto. }
  split; intros Hnone Hl; unfold cmd_merge; rewrite Hb, Hnone, Hl;
    cbn [load_todos]; bind_step; pose proof (load_todos_ids _ _ Hl) as Hid.
  - rewrite (merge_loop_by_choice m ∅ _ (λ k, m !! k) m); [done| |].
    + intros k. unfold merge_choice.
      rewrite (truthy_loaded m), lookup_empty by done. cbn [truthy].
      by destruct (m !! k).
    + intros k. destruct (decide (k ∈ _)) as [|Hout]; [done|].
      destruct (m !! k) eqn:E; [|done]. destruct Hout. apply Hin. left. by eexists.
  - rewrite (merge_loop_by_choice ∅ m _ (λ k, m !! k) m); [done| |].
    + intros k. unfold merge_choice.
      rewrite (truthy_loaded m), lookup_empty by done. cbn [truthy].
      by destruct (m !! k).
    + intros k. destruct (decide (k ∈ _)) as [|Hout]; [done|].
      destruct (m !! k) eqn:E; [|done]. destruct Hout. apply Hin. right. by eexists.
Qed.

(** X18.  Let the three files load, with a string for [updated_at] in
    every record of ours and theirs, and let no id be bound in ours and in
    theirs to two different records with the same [updated_at].  Then the
    merge does not depend on which side is which: [cmd_merge] writes the
    text to the file of ours that it writes to the file of theirs with the
    two sides exchanged. *)
Theorem merge_symmetric_without_ties visit base ours theirs fs (b o t : dict) :
  (∀ X, visit X ≡ₚ elements X) →
  load_todos (fs !! base) = Ok b →
  load_todos (fs !! ours) = Ok o →
  load_todos (fs !! theirs) = Ok t →
  map_Forall (λ _ obj, has_time obj) o →
  map_Forall (λ _ obj, has_time obj) t →
  (∀ k x y, o !! k = Some x → t !! k = Some y →
     get "updated_at" x = get "updated_at" y → x = y) →
  has_dirname ours = true → has_dirname theirs = true →
  ∃ merged,
    cmd_merge visit base ours theirs fs = Ok (<[ours := todos_text merged]> fs)
    ∧ cmd_merge visit base theirs ours fs = Ok (<[theirs := todos_text merged]> fs).
Proof.
  intros Hv Hb Ho Ht Hto Htt Hties Hdo Hdt.
  pose proof (load_todos_ids _ _ Ho) as Hio.
  pose proof (load_todos_ids _ _ Ht) as Hit.
  assert (Hsym : ∀ k, merge_choice o t k = merge_choice t o k).
  { intros k. rewrite !merge_choice_loaded by done.
    destruct (o !! k) as [x|] eqn:Ex, (t !! k) as [y|] eqn:Ey; try done.
    destruct (has_time_get _ (Hto _ _ Ex)) as [tx Hx].
    destruct (has_time_get _ (Htt _ _ Ey)) as [ty Hy].
    rewrite Hx, Hy. f_equal. f_equal.
    destruct (decide (String.le ty tx)) as [H1|H1],
             (decide (String.le tx ty)) as [H2|H2];
      rewrite ?(bool_decide_eq_true_2 _ H1), ?(bool_decide_eq_false_2 _ H1),
              ?(bool_decide_eq_true_2 _ H2), ?(bool_decide_eq_false_2 _ H2);
      try done.
    - apply (Hties k); [done..|]. rewrite Hx, Hy. f_equal. f_equal.
      by apply (anti_symm String.le).
    - by destruct (total String.le ty tx). }
  destruct (merge_loop_total o t (visit (dom b ∪ dom o ∪ dom t)) ∅)
    as [merged Hm].
  { apply Forall_forall. intros k _. eexists. by apply merge_choice_loaded. }
  exists merged. unfold cmd_merge. rewrite Hb, Ho, Ht. bind_step.
  rewrite Hm. bind_step. unfold write_todos. rewrite Hdo. split; [done|].
  rewrite <- merge_loop_swap by done.
  rewrite (merge_loop_Permutation o t _ (visit (dom b ∪ dom o ∪ dom t))).
  - rewrite Hm. bind_step. by rewrite Hdt.
  - rewrite !Hv. apply NoDup_Permutation; [apply NoDup_elements..|].
    intros k. rewrite !elem_of_elements, !elem_of_union. tauto.
Qed.

End MoreMerge.

(** * The properties on concrete stores *)

Import Demo.

#[local] Existing Instance python_json.

(** C1.  Two items are created, the second is made to depend on the first,
    and the first is closed: it is now in the closed file, with status
    "closed", and it is the only dependency of the second, which is open.
    [cmd_ready] loads the open file alone, where the first item no longer
    is, and lists nothing. *)
Theorem ready_misses_closed_dependency :
  cmd_new t0 "aaaaaaaa" "write spec" fresh = Ok (one_item, id_a)
  ∧ cmd_new t1 "bbbbbbbb" "review spec" one_item = Ok (two_open, id_b)
  ∧ cmd_dep t2 "td-b" "td-a" two_open = Ok with_dep
  ∧ cmd_close t3 "td-a" with_dep = Ok a_closed
  ∧ load_todos (todos_file a_closed) = Ok {[ id_b := item_b_dep ]}
  ∧ load_todos (closed_file a_closed) = Ok {[ id_a := item_a_closed ]}
  ∧ get "status" item_b_dep = Some (VStr "open")
  ∧ get "deps" item_b_dep = Some (VList [id_a])
  ∧ get "status" item_a_closed = Some (VStr "closed")
  ∧ cmd_ready a_closed = Ok [].
Proof. repeat split; run. Qed.

(** Witness for C2, on three files: [item_a] is later in theirs, [item_b]
    is in ours only. *)
Lemma merge_outcome_witness :
  ∃ merged,
    cmd_merge forwards "/tmp/base" "/tmp/ours" "/tmp/theirs" merge_fs
    = Ok (<["/tmp/ours" := todos_text merged]> merge_fs)
    ∧ merged !! id_a = Some item_a_late
    ∧ merged !! id_b = Some item_b.
Proof.
  destruct (merge_outcome forwards "/tmp/base" "/tmp/ours" "/tmp/theirs" merge_fs
              one_open merge_ours merge_theirs)
    as (merged & _ & Hrun & Hspec).
  - intros X. reflexivity.
  - run.
  - run.
  - run.
  - by_compute.
  - by_compute.
  - reflexivity.
  - exists merged. split; [exact Hrun|]. split.
    + destruct (Hspec id_a) as (_ & _ & Hboth).
      destruct (Hboth item_a_late t9) as [_ Hcmp]; [run..|].
      destruct (Hcmp item_a t0) as [_ Hlt]; [run..|]. apply Hlt. by vm_compute.
    + destruct (Hspec id_b) as (_ & Hours & _). apply Hours; run.
Defined.

(** Counterexample to C3 as stated, in the store [fresh]: the [dep] fails,
    and [ready] lists the new item. *)
Lemma dangling_dep_leaves_item_ready :
  cmd_new t0 "aaaaaaaa" "write spec" fresh = Ok (one_item, id_a)
  ∧ cmd_dep t1 id_a "td-ffffffff" one_item = Die "unknown id"
  ∧ cmd_ready one_item = Ok [item_a].
Proof. repeat split; run. Qed.

(** Witness for C3 as amended, in the same store. *)
Lemma dangling_parent_is_rejected_witness :
  ∃ st1 ready,
    cmd_new t0 "aaaaaaaa" "write spec" fresh = Ok (st1, "td-" +:+ "aaaaaaaa")
    ∧ cmd_dep t1 ("td-" +:+ "aaaaaaaa") "td-ffffffff" st1 = Die "unknown id"
    ∧ cmd_ready st1 = Ok ready
    ∧ new_item t0 ("td-" +:+ "aaaaaaaa") "write spec" ∈ ready.
Proof.
  apply (dangling_parent_is_rejected t0 t1 "aaaaaaaa" "write spec" "td-ffffffff"
           fresh ∅).
  - reflexivity.
  - run.
  - apply map_Forall_empty.
  - by_compute.
  - by_compute.
Defined.

(** Witness for C4, on the two ids of the specification. *)
Lemma resolve_id_spec_witness :
  resolve_id twins "td-aaaa1111" = Ok "td-aaaa1111"
  ∧ resolve_id twins "td-bbbb" = Die "unknown id"
  ∧ ∃ candidates,
      resolve_id twins "td-aaaa" = Die ("ambiguous id: " +:+ join ", " candidates)
      ∧ ∀ k, k ∈ candidates ↔ is_Some (twins !! k) ∧ startswith k "td-aaaa".
Proof.
  split; [|split].
  - apply (proj1 (resolve_id_spec twins "td-aaaa1111")). by_compute.
  - refine (proj1 (proj2 (resolve_id_spec twins "td-bbbb") _) _); [run|by_compute].
  - destruct (resolve_id_spec twins "td-aaaa") as [_ Hpartial].
    destruct Hpartial as (_ & _ & Hmany); [run|].
    destruct (Hmany "td-aaaa1111" "td-aaaa2222") as (candidates & Hdie & _ & _ & Hall);
      [discriminate|by_compute..|].
    exists candidates. split; [exact Hdie|exact Hall].
Defined.

(** Witness for C5, on a mapping with an empty summary and an empty list of
    deps. *)
Lemma save_load_roundtrip_witness :
  get "summary" item_a = Some (VStr "")
  ∧ get "deps" item_a = Some (VList [])
  ∧ ∃ fs', write_todos both_dep ".todos/todos.jsonl" ∅ = Ok fs'
           ∧ load_todos (fs' !! ".todos/todos.jsonl") = Ok both_dep.
Proof.
  split; [reflexivity|]. split; [reflexivity|].
  apply (save_load_roundtrip ∅ ".todos/todos.jsonl" both_dep);
    [reflexivity|by_compute..].
Defined.

(** Counterexample to C6 as stated: a [dep] that repeats an edge succeeds
    and leaves the time of the child as it was, although the clock has moved
    on. *)
Lemma repeated_dep_keeps_updated_at :
  cmd_dep t9 "td-b" "td-a" with_dep = Ok with_dep
  ∧ load_todos (todos_file with_dep) = Ok both_dep
  ∧ both_dep !! id_b ≫= get "updated_at" = Some (VStr t2)
  ∧ t2 ≠ t9.
Proof. repeat split; try run. discriminate. Qed.

(** Witness for C6 as amended: the [dep] that adds the edge. *)
Lemma mutations_stamp_updated_at_witness :
  ∃ todos child_id parent_id old deps todos',
    load_todos (todos_file two_open) = Ok todos
    ∧ resolve_id todos "td-b" = Ok child_id
    ∧ resolve_id todos "td-a" = Ok parent_id
    ∧ todos !! child_id = Some old
    ∧ get "deps" old = Some deps
    ∧ add_dep t2 child_id parent_id todos = Ok todos'
    ∧ todos_file with_dep = Some (todos_text todos')
    ∧ (∀ l, deps = VList l → parent_id ∉ l →
         ∃ obj, todos' !! child_id = Some obj
           ∧ get "deps" obj = Some (VList (sorted (l ++ [parent_id])))
           ∧ get "updated_at" obj = Some (VStr t2))
    ∧ (∀ l, deps = VList l → parent_id ∈ l → todos' = todos).
Proof.
  apply (mutations_stamp_updated_at t2 two_open with_dep). run.
Defined.

(** Witness for C7, on the store [with_dep], whose closed file is empty. *)
Lemma close_keeps_partitions_witness :
  let todos' := (close_item t3 id_a both_dep ∅).1 in
  let closed' := (close_item t3 id_a both_dep ∅).2 in
  cmd_close t3 "td-a" with_dep
  = Ok (Store true (Some (todos_text todos')) (Some (todos_text closed')))
  ∧ todos' !! id_a = None
  ∧ (∃ obj, closed' !! id_a = Some obj ∧ get "status" obj = Some (VStr "closed"))
  ∧ dom todos' ## dom closed'
  ∧ dom todos' ∪ dom closed' = dom both_dep ∪ dom (∅ : dict)
  ∧ (map_Forall (λ _ obj, codec_ok obj) todos' →
     map_Forall (λ _ obj, codec_ok obj) closed' →
     load_todos (Some (todos_text todos')) = Ok todos'
     ∧ load_todos (Some (todos_text closed')) = Ok closed').
Proof.
  apply (close_keeps_partitions t3 "td-a" with_dep both_dep ∅ id_a).
  - reflexivity.
  - run.
  - run.
  - rewrite dom_empty_L. apply disjoint_empty_r.
  - run.
Defined.

(** Witness for C8, on a file whose second line is not JSON and on one
    whose second line is an object without an id. *)
Lemma load_todos_empty_or_fatal_witness :
  load_todos (Some broken) = Raise ∧ load_todos (Some anonymous) = Raise.
Proof.
  split.
  - apply (load_todos_empty_or_fatal (H := python_json)) with (line := broken_line).
    + by_compute.
    + by vm_compute.
    + left. run.
  - apply (load_todos_empty_or_fatal (H := python_json)) with (line := anonymous_line).
    + by_compute.
    + by vm_compute.
    + right. exists [("title", VStr "write spec")]. split; run.
Defined.

(** Witness for C9, on the two orders of [Demo]. *)
Lemma merge_deterministic_witness :
  cmd_merge forwards "/tmp/base" "/tmp/ours" "/tmp/theirs" merge_fs
  = cmd_merge backwards "/tmp/base" "/tmp/ours" "/tmp/theirs" merge_fs.
Proof.
  apply (merge_deterministic forwards backwards).
  - intros X. reflexivity.
  - intros X. apply reverse_Permutation.
Defined.

(** Witness for C10, on a file whose two lines hold records with the same
    id. *)
Lemma load_todos_last_wins_witness :
  ∃ todos, load_todos (Some twice) = Ok todos ∧ todos !! id_a = Some item_a_late.
Proof.
  apply (load_todos_last_wins twice [json_dumps item_a +:+ newline] late_line []).
  - run.
  - by_compute.
  - run.
  - run.
  - constructor.
Defined.

(** * The further properties on concrete stores *)

Import Cases.

(** Witness for X1: the open file holds a record with status "closed", and
    the record that depends on it is listed. *)
Lemma cmd_ready_looks_at_open_file_witness :
  ∃ todos obj,
    load_todos (todos_file closed_among_open) = Ok todos
    ∧ todos !! id_a = Some obj
    ∧ get "status" obj = Some (VStr "closed").
Proof.
  apply (cmd_ready_looks_at_open_file closed_among_open [item_b_dep] item_b_dep
           (VList [id_a]) id_a).
  - run.
  - by_compute.
  - reflexivity.
  - by_compute.
Defined.

(** Witness for X2, on the store with two open items. *)
Lemma cmd_ready_sorted_open_witness :
  ∃ (todos : dict) ids,
    load_todos (todos_file two_open) = Ok todos
    ∧ [item_a; item_b] = (todos !!!.) <$> ids
    ∧ Sorted String.le ids ∧ NoDup ids
    ∧ ∀ k, k ∈ ids →
        ∃ t, todos !! k = Some t ∧ get "status" t = Some (VStr "open").
Proof. apply (cmd_ready_sorted_open two_open [item_a; item_b]). run. Defined.

(** Witness for X4, on the file of the store with two open items. *)
Lemma loaded_records_come_from_lines_witness :
  map_Forall (λ k obj,
    get "id" obj = Some (VStr k)
    ∧ ∃ line, line ∈ readlines (todos_text both_open)
              ∧ json_loads (strip line) = Some (JObj obj))
    both_open.
Proof.
  apply (proj2 (loaded_records_come_from_lines (todos_text both_open))). run.
Defined.

(** Witness for X5: a line of two blanks between two records. *)
Lemma load_todos_skips_blank_lines_witness :
  load_todos (Some spaced) = Ok both_open
  ∧ load_todos (Some spaced) = load_todos (Some unspaced).
Proof.
  split; [run|].
  apply (load_todos_skips_blank_lines (json_dumps item_a +:+ newline) "  "
           (json_dumps item_b +:+ newline)).
  - right. by exists (json_dumps item_a).
  - reflexivity.
  - reflexivity.
Defined.

(** Witness for X6, on the two ids of the ambiguous-prefix scenario. *)
Lemma resolve_id_sound_witness :
  is_Some (twins !! "td-aaaa2222")
  ∧ startswith "td-aaaa2222" "td-aaaa2"
  ∧ resolve_id twins "td-aaaa2222" = Ok "td-aaaa2222"
  ∧ (twins !! "td-aaaa2" = None →
     ∀ k', is_Some (twins !! k') → startswith k' "td-aaaa2" → k' = "td-aaaa2222").
Proof. apply (resolve_id_sound twins "td-aaaa2" "td-aaaa2222"). run. Defined.

(** Witness for X7: no id of the scenario starts with "td-bbbb". *)
Lemma resolve_id_failures_witness :
  resolve_id twins "td-bbbb" = Die "unknown id".
Proof.
  apply (proj2 (proj1 (proj2 (resolve_id_failures twins "td-bbbb")))).
  by_compute.
Defined.

(** Witness for X8, on the store with one open item. *)
Lemma resolve_id_empty_needle_witness : resolve_id one_open "" = Ok id_a.
Proof.
  apply (proj2 (proj2 (resolve_id_empty_needle one_open eq_refl) id_a)).
  apply dom_singleton_L.
Defined.

(** Witness for X9: the second [new] of the scenario. *)
Lemma cmd_new_adds_item_witness :
  ∃ st' todos',
    cmd_new t1 "bbbbbbbb" "review spec" one_item = Ok (st', "td-" +:+ "bbbbbbbb")
    ∧ closed_file st' = closed_file one_item
    ∧ load_todos (todos_file st') = Ok todos'
    ∧ todos' !! ("td-" +:+ "bbbbbbbb")
      = Some (new_item t1 ("td-" +:+ "bbbbbbbb") "review spec")
    ∧ resolve_id todos' ("td-" +:+ "bbbbbbbb") = Ok ("td-" +:+ "bbbbbbbb")
    ∧ ∀ k, k ≠ "td-" +:+ "bbbbbbbb" → todos' !! k = one_open !! k.
Proof.
  apply (cmd_new_adds_item t1 "bbbbbbbb" "review spec" one_item one_open).
  - reflexivity.
  - run.
  - by_compute.
Defined.

(** Witness for X10: a summary for the only item of a store. *)
Lemma cmd_summary_changes_one_item_witness :
  ∃ (todos : dict) _id old new,
    load_todos (todos_file one_item) = Ok todos
    ∧ resolve_id todos "td-a" = Ok _id
    ∧ todos !! _id = Some old
    ∧ Some (todos_text {[ id_a := item_a_done ]})
      = Some (todos_text (<[_id := new]> todos))
    ∧ Some "" = closed_file one_item
    ∧ ∀ f, f ≠ "summary" → f ≠ "updated_at" → get f new = get f old.
Proof.
  apply (cmd_summary_changes_one_item t2 "td-a" "first draft" one_item
           (Store true (Some (todos_text {[ id_a := item_a_done ]})) (Some ""))).
  run.
Defined.

(** Witness for X11: the [close] of the scenario. *)
Lemma cmd_close_moves_record_witness :
  ∃ (todos closed : dict) _id old new,
    load_todos (todos_file with_dep) = Ok todos
    ∧ load_todos (closed_file with_dep) = Ok closed
    ∧ resolve_id todos "td-a" = Ok _id
    ∧ todos !! _id = Some old
    ∧ todos_file a_closed = Some (todos_text (delete _id todos))
    ∧ closed_file a_closed = Some (todos_text (<[_id := new]> closed))
    ∧ ∀ f, f ≠ "status" → f ≠ "updated_at" → get f new = get f old.
Proof. apply (cmd_close_moves_record t3 "td-a" with_dep a_closed). run. Defined.

(** Witness for X12: the [dep] of the scenario. *)
Lemma cmd_dep_keeps_deps_sorted_witness :
  ∃ (todos : dict) child_id parent_id old new,
    load_todos (todos_file two_open) = Ok todos
    ∧ resolve_id todos "td-b" = Ok child_id
    ∧ resolve_id todos "td-a" = Ok parent_id
    ∧ todos !! child_id = Some old
    ∧ todos_file with_dep = Some (todos_text (<[child_id := new]> todos))
    ∧ closed_file with_dep = closed_file two_open
    ∧ (∀ f, f ≠ "deps" → f ≠ "updated_at" → get f new = get f old)
    ∧ ∀ l, get "deps" old = Some (VList l) →
        ∃ l', get "deps" new = Some (VList l')
          ∧ (∀ d, d ∈ l' ↔ d ∈ l ∨ d = parent_id)
          ∧ (NoDup l → NoDup l')
          ∧ (Sorted String.le l → Sorted String.le l').
Proof. apply (cmd_dep_keeps_deps_sorted t2 "td-b" "td-a" two_open with_dep). run. Defined.

(** Witness for X13: after the [close] of the scenario. *)
Lemma closed_item_out_of_reach_witness :
  ∃ st',
    cmd_close t3 "td-a" with_dep = Ok st'
    ∧ cmd_close t9 id_a st' = Die "unknown id"
    ∧ cmd_summary t9 id_a "late" st' = Die "unknown id"
    ∧ cmd_dep t9 id_a "td-b" st' = Die "unknown id"
    ∧ ∃ msg, cmd_dep t9 "td-b" id_a st' = Die msg.
Proof.
  apply (closed_item_out_of_reach t3 t9 "td-a" "late" "td-b" with_dep both_dep ∅ id_a).
  - reflexivity.
  - run.
  - run.
  - run.
  - by_compute.
  - by_compute.
Defined.

(** Witness for X14: the only item of a store is made to depend on itself. *)
Lemma self_dependency_blocks_ready_witness :
  ∃ st' todos',
    cmd_dep t2 "td-a" "td-a" one_item = Ok st'
    ∧ load_todos (todos_file st') = Ok todos'
    ∧ (∃ new l', todos' !! id_a = Some new
         ∧ get "deps" new = Some (VList l') ∧ id_a ∈ l')
    ∧ ∀ ready t, cmd_ready st' = Ok ready → t ∈ ready →
        get "id" t ≠ Some (VStr id_a).
Proof.
  apply (self_dependency_blocks_ready t2 "td-a" one_item one_open id_a item_a []).
  - reflexivity.
  - run.
  - run.
  - run.
  - reflexivity.
  - apply not_elem_of_nil.
  - by_compute.
Defined.

(** Witness for X15: the three files of the merge, with an empty file for
    the common ancestor. *)
Lemma merge_ignores_base_witness :
  cmd_merge forwards "/tmp/base" "/tmp/ours" "/tmp/theirs"
    (<["/tmp/base" := ""]> merge_fs)
  = cmd_merge forwards "/tmp/base" "/tmp/ours" "/tmp/theirs" merge_fs
    ≫= (λ out, Ok (<["/tmp/base" := ""]> out)).
Proof.
  apply (merge_ignores_base forwards "/tmp/base" "/tmp/ours" "/tmp/theirs"
           merge_fs "" one_open ∅).
  - intros X. reflexivity.
  - discriminate.
  - discriminate.
  - run.
  - run.
Defined.

(** Witness for X16: a merge with a file of theirs that does not exist. *)
Lemma merge_with_missing_side_witness :
  cmd_merge forwards "/tmp/base" "/tmp/ours" "/tmp/nowhere" merge_fs
  = write_todos merge_ours "/tmp/ours" merge_fs.
Proof.
  refine (proj1 (merge_with_missing_side (H := python_json) forwards
                   "/tmp/base" "/tmp/ours" "/tmp/nowhere" merge_fs one_open
                   merge_ours _ _) _ _).
  - intros X. reflexivity.
  - run.
  - run.
  - run.
Defined.

(** Witness for X17: a merge on three bare file names. *)
Lemma merge_needs_directory_witness :
  cmd_merge forwards ".merge_file_a" ".merge_file_b" ".merge_file_c" ∅ = Raise.
Proof.
  apply (proj2 (merge_needs_directory forwards ".merge_file_a" ".merge_file_b"
                  ".merge_file_c" ∅)).
  reflexivity.
Defined.

(** Witness for X18: the two sides changed different items. *)
Lemma merge_symmetric_without_ties_witness :
  ∃ merged,
    cmd_merge forwards "/tmp/base" "/tmp/ours" "/tmp/theirs" sides_fs
    = Ok (<["/tmp/ours" := todos_text merged]> sides_fs)
    ∧ cmd_merge forwards "/tmp/base" "/tmp/theirs" "/tmp/ours" sides_fs
      = Ok (<["/tmp/theirs" := todos_text merged]> sides_fs).
Proof.
  apply (merge_symmetric_without_ties forwards "/tmp/base" "/tmp/ours"
           "/tmp/theirs" sides_fs both_open side_one side_two).
  - intros X. reflexivity.
  - run.
  - run.
  - run.
  - by_compute.
  - by_compute.
  - intros k x y Hx Hy Heq. unfold side_one, side_two in Hx, Hy.
    apply lookup_insert_Some in Hx as [[<- <-]|[Hne Hx]].
    + rewrite lookup_insert_eq in Hy. injection Hy as <-. by vm_compute in Heq.
    + apply lookup_singleton_Some in Hx as [<- <-].
      rewrite lookup_insert_ne, lookup_singleton_eq in Hy by done.
      injection Hy as <-. by vm_compute in Heq.
  - reflexivity.
  - reflexivity.
Defined.

(** Witness for X19: an attributes file with a line of the user, which has
    no line end. *)
Lemma init_gitattributes_idempotent_witness :
  init_gitattributes (Some "*.png binary")
  = "*.png binary.todos/todos.jsonl merge=todo" +:+ newline
    +:+ ".todos/closed.jsonl merge=todo" +:+ newline
  ∧ ∃ added, init_gitattributes (Some "*.png binary") = "*.png binary" +:+ added.
Proof.
  split; [reflexivity|].
  apply (proj1 (proj2 (proj2 (init_gitattributes_idempotent (Some "*.png binary"))))).
  reflexivity.
Defined.


(** Witness for X22, on the store with two open items. *)
Lemma cmd_list_json_is_file_text_witness :
  (cmd_list str_plain false true two_open).2 = Ok ()
  ∧ printed (cmd_list str_plain false true two_open).1 = todos_text both_open.
Proof.
  apply (cmd_list_json_is_file_text str_plain false two_open both_open).
  - reflexivity.
  - run.
Defined.

(** Witness for X23: the second [new] of the scenario. *)
Lemma new_item_is_listed_witness :
  ∃ st',
    cmd_new t1 "bbbbbbbb" "review spec" one_item = Ok (st', "td-" +:+ "bbbbbbbb")
    ∧ ((cmd_list str_plain false false st').2 = Ok () →
       ("td-" +:+ "bbbbbbbb") +:+ " [open] " +:+ "review spec"
       ∈ (cmd_list str_plain false false st').1)
    ∧ json_dumps (new_item t1 ("td-" +:+ "bbbbbbbb") "review spec")
      ∈ (cmd_list str_plain false true st').1.
Proof.
  apply (new_item_is_listed str_plain t1 "bbbbbbbb" "review spec" one_item one_open).
  - reflexivity.
  - run.
  - by_compute.
Defined.

(** Witness for X24: the first item of the store with a dependency. *)
Lemma ready_lines_are_listed_witness :
  json_dumps item_a ∈ (cmd_list str_plain false true with_dep).1.
Proof.
  apply (ready_lines_are_listed str_plain with_dep (json_dumps item_a)).
  by_compute.
Defined.

